(** * SoftwareServo: a software-timer servo driver for the ESP8266

    A shallow embedding of [SoftwareServo.cpp] / [SoftwareServo.h] and the
    properties of its pulse scheduler, its channel table and its
    angle/microsecond mapping.

    Conventions of the embedding:
    - C++ [int] values are mathematical integers ([Z]); where the source
      converts to a narrower or unsigned type, or where arithmetic can leave
      the 32-bit range, the wrap-around is written out ([to_int],
      [to_uint8], [to_uint16], [to_uint]).
    - The file-level [static] variables are the fields of [Globals]; the
      members of a [SoftwareServo] object are the fields of [SoftwareServo].
    - Functions with side effects are computations in a state-and-fault
      monad [M].  A fault stands for behaviour the C++ standard leaves
      undefined and that can trap: an integer division by zero, the
      division of the least [int] by -1, and an array access outside its
      bounds.
    - Hardware calls ([digitalWrite], [pinMode], [os_delay_us]) append to a
      trace; the one [os_timer_t] is a state field.  *)

From Stdlib Require Import ZArith Lia Bool List.
From stdpp Require Import base list.
Import ListNotations.

Local Open Scope Z_scope.

(* ------------------------------------------------------------------ *)
(** ** Machine integers *)

Module MachineInt.

(** Two's-complement reduction to a 32-bit [int]. *)
Definition to_int (x : Z) : Z := (x + 2 ^ 31) mod 2 ^ 32 - 2 ^ 31.

(** Conversions to the unsigned types used by the source. *)
Definition to_uint (x : Z) : Z := x mod 2 ^ 32.
Definition to_uint16 (x : Z) : Z := x mod 2 ^ 16.
Definition to_uint8 (x : Z) : Z := x mod 2 ^ 8.

Definition is_int (x : Z) : Prop := - 2 ^ 31 <= x < 2 ^ 31.
Definition is_uint16 (x : Z) : Prop := 0 <= x < 2 ^ 16.

Definition iadd (x y : Z) : Z := to_int (x + y).
Definition isub (x y : Z) : Z := to_int (x - y).
Definition imul (x y : Z) : Z := to_int (x * y).

End MachineInt.
Import MachineInt.

(* ------------------------------------------------------------------ *)
(** ** Faults and the state monad *)

Inductive fault : Type :=
| DivideByZero
| DivideOverflow
| OutOfBounds
| NoSuchObject.

Inductive result (A : Type) : Type :=
| Ok (a : A)
| Fault (f : fault).
Arguments Ok {A} a.
Arguments Fault {A} f.

Definition result_bind {A B} (r : result A) (k : A -> result B) : result B :=
  match r with
  | Ok a => k a
  | Fault f => Fault f
  end.

Definition M (S A : Type) : Type := S -> result (A * S).

Definition ret {S A} (a : A) : M S A := fun s => Ok (a, s).

Definition bind {S A B} (m : M S A) (k : A -> M S B) : M S B :=
  fun s =>
    match m s with
    | Ok (a, s') => k a s'
    | Fault f => Fault f
    end.

Definition gets {S A} (f : S -> A) : M S A := fun s => Ok (f s, s).

Definition modify {S} (f : S -> S) : M S unit := fun s => Ok (tt, f s).

Definition lift {S A} (r : result A) : M S A :=
  fun s =>
    match r with
    | Ok a => Ok (a, s)
    | Fault f => Fault f
    end.

Arguments ret {S A} a s /.
Arguments bind {S A B} m k s /.
Arguments gets {S A} f s /.
Arguments modify {S} f s /.
Arguments lift {S A} r s /.

Notation "'let*' x ':=' m 'in' k" := (bind m (fun x => k))
  (at level 10, x pattern, m at level 100, k at level 200, only parsing).
Notation "m1 ';;' m2" := (bind m1 (fun _ => m2))
  (at level 100, m2 at level 200, right associativity, only parsing).

(** Integer division of two [int]s, truncating toward zero as in C++.  A
    zero divisor is undefined, and so is the one quotient that does not fit
    an [int], that of the least [int] by -1. *)
Definition idiv (x y : Z) : result Z :=
  if y =? 0 then Fault DivideByZero
  else if (x =? - 2 ^ 31) && (y =? -1) then Fault DivideOverflow
  else Ok (to_int (Z.quot x y)).

(** Fixed-size [int] arrays. *)
Definition array_get (a : list Z) (i : Z) : result Z :=
  if 0 <=? i then
    match a !! Z.to_nat i with
    | Some v => Ok v
    | None => Fault OutOfBounds
    end
  else Fault OutOfBounds.

Definition array_set (a : list Z) (i v : Z) : result (list Z) :=
  if (0 <=? i) && (i <? Z.of_nat (length a))
  then Ok (<[Z.to_nat i := v]> a)
  else Fault OutOfBounds.

(* ------------------------------------------------------------------ *)
(** ** Constants of [SoftwareServo.h] and macros of [Arduino.h] *)

Definition DEFAULT_MIN_PULSE_WIDTH : Z := 1000.
Definition DEFAULT_MAX_PULSE_WIDTH : Z := 2000.
Definition DEFAULT_NEUTRAL_PULSE_WIDTH : Z := 1500.
Definition REFRESH_INTERVAL : Z := 5.
Definition MAX_SERVOS : Z := 4.

(** [constrain(amt, low, high)] of the Arduino core:
    [((amt)<(low)?(low):((amt)>(high)?(high):(amt)))]. *)
Definition constrain (amt low high : Z) : Z :=
  if amt <? low then low else if amt >? high then high else amt.

(* ------------------------------------------------------------------ *)
(** ** The mapping helper *)

(** [improved_map], lines 35-46. *)
Definition improved_map (value minIn maxIn minOut maxOut : Z) : result Z :=
  let rangeIn := isub maxIn minIn in
  let rangeOut := isub maxOut minOut in
  let deltaIn := isub value minIn in
  let fixedHalfDecimal := 1 in
  let fixedDecimal := imul fixedHalfDecimal 2 in
  result_bind (idiv (imul (imul deltaIn rangeOut) fixedDecimal) rangeIn)
    (fun q =>
       result_bind (idiv (iadd q fixedHalfDecimal) fixedDecimal)
         (fun h => Ok (iadd h minOut))).

(** The two directions in which the handle uses the helper: [write] maps an
    angle of [0,180] to the calibrated pulse range, [read] maps back. *)
Definition angle_to_us (minUs maxUs a : Z) : result Z :=
  improved_map a 0 180 minUs maxUs.

Definition us_to_angle (minUs maxUs us : Z) : result Z :=
  improved_map us minUs maxUs 0 180.

(* ------------------------------------------------------------------ *)
(** ** Hardware: pins, busy wait and the one software timer *)

Inductive level : Type := LOW | HIGH.

Inductive hw_event : Type :=
| DigitalWrite (pin : Z) (v : level)
| PinModeOutput (pin : Z)
| DelayUs (us : Z).

(** The [os_timer_t]: disarmed, or armed to call [software_servo_timer_tick]
    after [ms] time units. *)
Inductive os_timer_t : Type :=
| Disarmed
| Armed (ms : Z) (repeat : bool).

(* ------------------------------------------------------------------ *)
(** ** The file-level state (lines 49-61) *)

Record Globals : Type := mkGlobals {
  software_servo_timer : os_timer_t;
  software_servo_pins : list Z;
  software_servo_pulse_lenght : list Z;
  software_servo_current_servo : Z;
  software_servo_map : Z;
  software_servo_next_servo : list Z;
  software_servo_time_to_next_pulse : list Z;
  hw_trace : list hw_event
}.

Definition initial_globals : Globals :=
  {| software_servo_timer := Disarmed;
     software_servo_pins := [-1; -1; -1; -1];
     software_servo_pulse_lenght :=
       [DEFAULT_NEUTRAL_PULSE_WIDTH; DEFAULT_NEUTRAL_PULSE_WIDTH;
        DEFAULT_NEUTRAL_PULSE_WIDTH; DEFAULT_NEUTRAL_PULSE_WIDTH];
     software_servo_current_servo := 0;
     software_servo_map := 0;
     software_servo_next_servo := [1; 2; 3; 0];
     software_servo_time_to_next_pulse :=
       [REFRESH_INTERVAL; REFRESH_INTERVAL; REFRESH_INTERVAL; REFRESH_INTERVAL];
     hw_trace := [] |}.

Definition set_timer (t : os_timer_t) (g : Globals) : Globals :=
  mkGlobals t (software_servo_pins g) (software_servo_pulse_lenght g)
    (software_servo_current_servo g) (software_servo_map g)
    (software_servo_next_servo g) (software_servo_time_to_next_pulse g)
    (hw_trace g).

Definition set_pins (a : list Z) (g : Globals) : Globals :=
  mkGlobals (software_servo_timer g) a (software_servo_pulse_lenght g)
    (software_servo_current_servo g) (software_servo_map g)
    (software_servo_next_servo g) (software_servo_time_to_next_pulse g)
    (hw_trace g).

Definition set_pulse_lenght (a : list Z) (g : Globals) : Globals :=
  mkGlobals (software_servo_timer g) (software_servo_pins g) a
    (software_servo_current_servo g) (software_servo_map g)
    (software_servo_next_servo g) (software_servo_time_to_next_pulse g)
    (hw_trace g).

Definition set_current_servo (c : Z) (g : Globals) : Globals :=
  mkGlobals (software_servo_timer g) (software_servo_pins g)
    (software_servo_pulse_lenght g) c (software_servo_map g)
    (software_servo_next_servo g) (software_servo_time_to_next_pulse g)
    (hw_trace g).

Definition set_map (m : Z) (g : Globals) : Globals :=
  mkGlobals (software_servo_timer g) (software_servo_pins g)
    (software_servo_pulse_lenght g) (software_servo_current_servo g) m
    (software_servo_next_servo g) (software_servo_time_to_next_pulse g)
    (hw_trace g).

Definition set_next_servo (a : list Z) (g : Globals) : Globals :=
  mkGlobals (software_servo_timer g) (software_servo_pins g)
    (software_servo_pulse_lenght g) (software_servo_current_servo g)
    (software_servo_map g) a (software_servo_time_to_next_pulse g)
    (hw_trace g).

Definition set_time_to_next_pulse (a : list Z) (g : Globals) : Globals :=
  mkGlobals (software_servo_timer g) (software_servo_pins g)
    (software_servo_pulse_lenght g) (software_servo_current_servo g)
    (software_servo_map g) (software_servo_next_servo g) a (hw_trace g).

Definition emit (e : hw_event) (g : Globals) : Globals :=
  mkGlobals (software_servo_timer g) (software_servo_pins g)
    (software_servo_pulse_lenght g) (software_servo_current_servo g)
    (software_servo_map g) (software_servo_next_servo g)
    (software_servo_time_to_next_pulse g) (hw_trace g ++ [e]).

(** Reading and writing one element of a global array. *)
Definition load (arr : Globals -> list Z) (i : Z) : M Globals Z :=
  let* a := gets arr in lift (array_get a i).

Definition store (arr : Globals -> list Z)
    (upd : list Z -> Globals -> Globals) (i v : Z) : M Globals unit :=
  let* a := gets arr in
  let* a' := lift (array_set a i v) in
  modify (upd a').

Arguments load arr i s /.
Arguments store arr upd i v s /.

(** The collaborators of section "External interfaces". *)
Definition digitalWrite (pin : Z) (v : level) : M Globals unit :=
  modify (emit (DigitalWrite pin v)).
Definition pinMode_OUTPUT (pin : Z) : M Globals unit :=
  modify (emit (PinModeOutput pin)).
Definition os_delay_us (us : Z) : M Globals unit :=
  modify (emit (DelayUs us)).
Definition os_timer_disarm : M Globals unit := modify (set_timer Disarmed).
(** The callback registered is always [software_servo_timer_tick]. *)
Definition os_timer_setfn : M Globals unit := ret tt.
Definition os_timer_arm (ms : Z) (repeat : bool) : M Globals unit :=
  modify (set_timer (Armed ms repeat)).

(* ------------------------------------------------------------------ *)
(** ** The Schedule Builder: [find_times_between_pulses], lines 64-92 *)

(** The inner [for (ii ...)] loop for a fixed [i], with [n] iterations left;
    its result is the final value of [find]. *)
Fixpoint scan_successor (n : nat) (i ii tmp_time find : Z) : M Globals Z :=
  match n with
  | O => ret find
  | S n' =>
      let* p := load software_servo_pins (Z.rem (ii + i + 1) MAX_SERVOS) in
      if (p =? -1) && (find =? 0) then
        scan_successor n' i (ii + 1) (tmp_time + REFRESH_INTERVAL) find
      else
        store software_servo_next_servo set_next_servo i
          (Z.rem (ii + i + 1) MAX_SERVOS) ;;
        store software_servo_time_to_next_pulse set_time_to_next_pulse i
          tmp_time ;;
        ret 1
  end.

(** The outer [for (i ...)] loop, with [n] iterations left. *)
Fixpoint scan_servos (n : nat) (i finded : Z) : M Globals Z :=
  match n with
  | O => ret finded
  | S n' =>
      let* find := scan_successor (Z.to_nat MAX_SERVOS) i 0 REFRESH_INTERVAL 0 in
      scan_servos n' (i + 1) (finded + find)
  end.

Definition find_times_between_pulses : M Globals Z :=
  scan_servos (Z.to_nat MAX_SERVOS) 0 0.

(* ------------------------------------------------------------------ *)
(** ** The Pulse Emitter: [software_servo_timer_tick], lines 94-115 *)

Definition software_servo_timer_tick : M Globals unit :=
  let* map := gets software_servo_map in
  let* cur := gets software_servo_current_servo in
  let* rearm :=
    (if map =? 0 then ret false
     else
       let* t := load software_servo_time_to_next_pulse cur in
       ret (0 <=? t)) in
  if rearm : bool then
    os_timer_disarm ;;
    os_timer_setfn ;;
    let* t := load software_servo_time_to_next_pulse cur in
    os_timer_arm t true ;;
    let* pin := load software_servo_pins cur in
    (if 0 <=? pin then
       digitalWrite pin HIGH ;;
       let* w := load software_servo_pulse_lenght cur in
       os_delay_us w ;;
       digitalWrite pin LOW
     else ret tt) ;;
    let* nxt := load software_servo_next_servo cur in
    modify (set_current_servo (to_uint nxt))
  else
    os_timer_disarm.

(* ------------------------------------------------------------------ *)
(** ** The Channel Handle: class [SoftwareServo] *)

Record SoftwareServo : Type := mkServo {
  _id : Z;
  _attached : bool;
  _minUs : Z;
  _maxUs : Z
}.

(** A method body runs on the object it is called on and on the globals. *)
Record Env : Type := mkEnv {
  this : SoftwareServo;
  globals : Globals
}.

Definition set_id (v : Z) (e : Env) : Env :=
  mkEnv (mkServo v (_attached (this e)) (_minUs (this e)) (_maxUs (this e)))
    (globals e).
Definition set_attached (v : bool) (e : Env) : Env :=
  mkEnv (mkServo (_id (this e)) v (_minUs (this e)) (_maxUs (this e)))
    (globals e).
Definition set_minUs (v : Z) (e : Env) : Env :=
  mkEnv (mkServo (_id (this e)) (_attached (this e)) v (_maxUs (this e)))
    (globals e).
Definition set_maxUs (v : Z) (e : Env) : Env :=
  mkEnv (mkServo (_id (this e)) (_attached (this e)) (_minUs (this e)) v)
    (globals e).

(** Running code that touches only the globals from inside a method. *)
Definition on_globals {A} (m : M Globals A) : M Env A :=
  fun e =>
    match m (globals e) with
    | Ok (a, g) => Ok (a, mkEnv (this e) g)
    | Fault f => Fault f
    end.

Definition field {A} (f : SoftwareServo -> A) : M Env A :=
  gets (fun e => f (this e)).

Arguments on_globals {A} m e /.
Arguments field {A} f s /.

(** The constructor, lines 120-126. *)
Definition new_SoftwareServo : SoftwareServo :=
  {| _id := -1;
     _attached := false;
     _minUs := DEFAULT_MIN_PULSE_WIDTH;
     _maxUs := DEFAULT_MAX_PULSE_WIDTH |}.

(** [SoftwareServo::detach], lines 184-194. *)
Definition detach : M Env unit :=
  let* attached := field _attached in
  if attached : bool then
    let* id := field _id in
    let* map := on_globals (gets software_servo_map) in
    on_globals (modify (set_map (Z.land map (Z.lnot (Z.shiftl 1 id))))) ;;
    on_globals (store software_servo_pulse_lenght set_pulse_lenght id
                  DEFAULT_NEUTRAL_PULSE_WIDTH) ;;
    modify (set_id (-1)) ;;
    modify (set_attached false)
  else ret tt.

(** The destructor, lines 128-131. *)
Definition delete_SoftwareServo : M Env unit := detach.

(** [SoftwareServo::writeMicroseconds], lines 209-228. *)
Definition writeMicroseconds (value : Z) : M Env unit :=
  let* minUs := field _minUs in
  let* maxUs := field _maxUs in
  let value := constrain value minUs maxUs in
  let* attached := field _attached in
  if attached : bool then
    let* id := field _id in
    on_globals (store software_servo_pulse_lenght set_pulse_lenght id value) ;;
    let* finded := on_globals find_times_between_pulses in
    if finded >? 0 then
      let* map := on_globals (gets software_servo_map) in
      on_globals (modify (set_map (Z.lor map (Z.shiftl 1 id)))) ;;
      on_globals os_timer_disarm ;;
      on_globals os_timer_setfn ;;
      let* cur := on_globals (gets software_servo_current_servo) in
      let* t := on_globals (load software_servo_time_to_next_pulse cur) in
      on_globals (os_timer_arm t true)
    else
      let* map := on_globals (gets software_servo_map) in
      on_globals (modify (set_map (Z.land map (Z.lnot (Z.shiftl 1 id))))) ;;
      on_globals os_timer_disarm
  else ret tt.

(** [SoftwareServo::write], lines 196-207. *)
Definition write (value : Z) : M Env unit :=
  let* value :=
    (if value <? 200 then
       let value := constrain value 0 180 in
       let* minUs := field _minUs in
       let* maxUs := field _maxUs in
       lift (improved_map value 0 180 minUs maxUs)
     else ret value) in
  writeMicroseconds value.

(** [SoftwareServo::readMicroseconds], lines 236-244. *)
Definition readMicroseconds : M Env Z :=
  let* attached := field _attached in
  if attached : bool then
    let* id := field _id in
    on_globals (load software_servo_pulse_lenght id)
  else ret 0.

(** [SoftwareServo::read], lines 230-234. *)
Definition read : M Env Z :=
  let* us := readMicroseconds in
  let* minUs := field _minUs in
  let* maxUs := field _maxUs in
  lift (improved_map us minUs maxUs 0 180).

(** [SoftwareServo::attached], lines 246-249. *)
Definition attached : M Env bool := field _attached.

(** The slot search of [attach], lines 151-162, with [n] iterations left. *)
Fixpoint claim_slot (n : nat) (i pin value : Z) : M Env unit :=
  match n with
  | O => ret tt
  | S n' =>
      let* p := on_globals (load software_servo_pins i) in
      if p =? -1 then
        on_globals (store software_servo_pins set_pins i pin) ;;
        on_globals (store software_servo_pulse_lenght set_pulse_lenght i value) ;;
        modify (set_id i)
      else claim_slot n' (i + 1) pin value
  end.

(** [SoftwareServo::attach(int, uint16_t, uint16_t, int)], lines 143-182.
    The arguments [minUs] and [maxUs] arrive converted to [uint16_t]; the
    result is converted to [uint8_t]. *)
Definition attach (pin minUs maxUs value : Z) : M Env Z :=
  let minUs := to_uint16 minUs in
  let maxUs := to_uint16 maxUs in
  let* was_attached := field _attached in
  let* failed :=
    (if negb was_attached then
       on_globals (digitalWrite pin LOW) ;;
       on_globals (pinMode_OUTPUT pin) ;;
       claim_slot (Z.to_nat MAX_SERVOS) 0 pin value ;;
       let* id := field _id in
       if id =? -1 then ret true
       else modify (set_attached true) ;; ret false
     else ret false) in
  if failed : bool then ret 0
  else
    modify (set_maxUs (Z.max 250 (Z.min 3000 maxUs))) ;;
    let* mx := field _maxUs in
    modify (set_minUs (Z.max 200 (Z.min mx minUs))) ;;
    write value ;;
    ret (to_uint8 pin).

(** The overloads, lines 133-141. *)
Definition attach_pin_min_max (pin minUs maxUs : Z) : M Env Z :=
  attach pin minUs maxUs DEFAULT_NEUTRAL_PULSE_WIDTH.

Definition attach_pin (pin : Z) : M Env Z :=
  attach_pin_min_max pin DEFAULT_MIN_PULSE_WIDTH DEFAULT_MAX_PULSE_WIDTH.

(* ------------------------------------------------------------------ *)
(** ** Programs: several handle objects over the one set of globals *)

Record Program : Type := mkProgram {
  objects : list SoftwareServo;
  statics : Globals
}.

(** [call o m] runs method [m] on object number [o]. *)
Definition call {A} (o : nat) (m : M Env A) : M Program A :=
  fun p =>
    match objects p !! o with
    | None => Fault NoSuchObject
    | Some s =>
        match m (mkEnv s (statics p)) with
        | Ok (a, e) => Ok (a, mkProgram (<[o := this e]> (objects p)) (globals e))
        | Fault f => Fault f
        end
    end.

(** [interrupt m] runs the timer callback: it sees the globals only. *)
Definition interrupt {A} (m : M Globals A) : M Program A :=
  fun p =>
    match m (statics p) with
    | Ok (a, g) => Ok (a, mkProgram (objects p) g)
    | Fault f => Fault f
    end.

(** A program that has declared [n] servo objects and called nothing yet. *)
Definition boot (n : nat) : Program :=
  mkProgram (replicate n new_SoftwareServo) initial_globals.

(* ================================================================== *)
(** * Vocabulary of the properties *)

(* ------------------------------------------------------------------ *)
(** ** Rounding division, the arithmetic core of [improved_map] *)

(** [scale x n m] is [x * m / n] rounded half up, computed the way
    [improved_map] does it with one binary digit of fixed point. *)
Definition scale (x n m : Z) : Z := (x * m * 2 / n + 1) / 2.

(* ------------------------------------------------------------------ *)
(** ** Well-formed states *)

(** The four arrays have [MAX_SERVOS] elements, as declared. *)
Definition arrays_sized (g : Globals) : Prop :=
  length (software_servo_pins g) = Z.to_nat MAX_SERVOS /\
  length (software_servo_pulse_lenght g) = Z.to_nat MAX_SERVOS /\
  length (software_servo_next_servo g) = Z.to_nat MAX_SERVOS /\
  length (software_servo_time_to_next_pulse g) = Z.to_nat MAX_SERVOS.

(** The cursor and every successor index point into the arrays. *)
Definition cursor_ok (g : Globals) : Prop :=
  0 <= software_servo_current_servo g < MAX_SERVOS /\
  Forall (fun x => 0 <= x < MAX_SERVOS) (software_servo_next_servo g).

Definition globals_ok (g : Globals) : Prop := arrays_sized g /\ cursor_ok g.

(** A handle is either unbound, with [_id = -1], or bound to a slot. *)
Definition binding_ok (h : SoftwareServo) : Prop :=
  if _attached h then 0 <= _id h < MAX_SERVOS else _id h = -1.

(** The bounds rule of the calibration: both bounds within [200,3000],
    ordered, the upper one at least 250. *)
Definition calibrated (h : SoftwareServo) : Prop :=
  200 <= _minUs h /\ _minUs h <= _maxUs h /\
  250 <= _maxUs h /\ _maxUs h <= 3000.

Definition handle_ok (h : SoftwareServo) : Prop :=
  binding_ok h /\ calibrated h.

(** Slot [j] has a pin assigned, in the sense of the Schedule Builder. *)
Definition assigned (g : Globals) (j : Z) : Prop :=
  exists p, array_get (software_servo_pins g) j = Ok p /\ p <> -1.

Definition unassigned (g : Globals) (j : Z) : Prop :=
  array_get (software_servo_pins g) j = Ok (-1).

(** [g'] differs from [g] in the Schedule (and nothing else). *)
Definition schedule_only (g g' : Globals) : Prop :=
  software_servo_timer g' = software_servo_timer g /\
  software_servo_pins g' = software_servo_pins g /\
  software_servo_pulse_lenght g' = software_servo_pulse_lenght g /\
  software_servo_current_servo g' = software_servo_current_servo g /\
  software_servo_map g' = software_servo_map g /\
  hw_trace g' = hw_trace g.

(** Slot [k] is the lowest-indexed free slot of the Channel Table. *)
Definition first_free (g : Globals) (k : Z) : Prop :=
  0 <= k < MAX_SERVOS /\
  unassigned g k /\
  forall j, 0 <= j < k -> assigned g j.

Definition table_full (g : Globals) : Prop :=
  forall j, 0 <= j < MAX_SERVOS -> assigned g j.

(** Going round from slot [i], the first slot with a pin is [d] steps
    away: it is slot [(i + d) mod MAX_SERVOS], and [d] may be a full turn. *)
Definition successor_at (g : Globals) (i d : Z) : Prop :=
  1 <= d <= MAX_SERVOS /\
  assigned g (Z.rem (i + d) MAX_SERVOS) /\
  forall d', 1 <= d' < d -> unassigned g (Z.rem (i + d') MAX_SERVOS).

(** The time the Pulse Emitter takes to go once round the slots that have
    a pin: the sum of their delays. *)
Definition cycle_time (g : Globals) : Z :=
  foldr Z.add 0
    (zip_with (fun p t => if p =? -1 then 0 else t)
       (software_servo_pins g) (software_servo_time_to_next_pulse g)).

(** Slot [i] has a pin, by the test of the Schedule Builder. *)
Definition has_pin (g : Globals) (i : Z) : bool :=
  match array_get (software_servo_pins g) i with
  | Ok p => negb (p =? -1)
  | Fault _ => false
  end.

(** The slots that have a pin, in index order. *)
Definition active_slots (g : Globals) : list Z :=
  List.filter (has_pin g) (map Z.of_nat (seq 0 (Z.to_nat MAX_SERVOS))).

(** The slots of [l] in cyclic order, going round from slot [i]. *)
Definition round_from (i : Z) (l : list Z) : list Z :=
  List.filter (fun j => i <=? j) l ++ List.filter (fun j => j <? i) l.

Definition timer_period (t : os_timer_t) : Z :=
  match t with
  | Armed ms _ => ms
  | Disarmed => 0
  end.

(** [n] calls of [software_servo_timer_tick] in a row.  The result lists
    the slots the cursor stood on when each call began, and adds up the
    periods that the calls armed the timer with. *)
Fixpoint ticks (n : nat) : M Globals (list Z * Z) :=
  match n with
  | O => ret ([], 0)
  | S n' =>
      let* cur := gets software_servo_current_servo in
      software_servo_timer_tick ;;
      let* tm := gets software_servo_timer in
      let* rest := ticks n' in
      ret (cur :: fst rest, timer_period tm + snd rest)
  end.

(** The walk of the cursor through a Schedule: [n] moves along [nxt] from
    slot [cur], with the slots passed, the sum of their delays, and the
    slot reached. *)
Fixpoint walk (nxt tim : list Z) (n : nat) (cur : Z)
    : result (list Z * Z * Z) :=
  match n with
  | O => Ok ([], 0, cur)
  | S n' =>
      result_bind (array_get tim cur) (fun t =>
      result_bind (array_get nxt cur) (fun nx =>
      result_bind (walk nxt tim n' nx) (fun r =>
      Ok (cur :: fst (fst r), t + snd (fst r), snd r))))
  end.

(** The Schedule entry of slot [i] in [g'] is right for the pins of [g]. *)
Definition entry_built (g g' : Globals) (i : Z) : Prop :=
  exists d,
    successor_at g i d /\
    array_get (software_servo_next_servo g') i = Ok (Z.rem (i + d) MAX_SERVOS) /\
    array_get (software_servo_time_to_next_pulse g') i =
      Ok (d * REFRESH_INTERVAL).

(** The Schedule fits the pin table: if any slot has a pin, every entry
    points to the nearest slot with a pin, with the matching delay. *)
Definition schedule_consistent (g : Globals) : Prop :=
  (exists j, 0 <= j < MAX_SERVOS /\ assigned g j) ->
  forall i, 0 <= i < MAX_SERVOS -> entry_built g g i.

(** A non-zero active bitmask is backed by at least one pin. *)
Definition bitmask_backed (g : Globals) : Prop :=
  software_servo_map g <> 0 -> exists j, 0 <= j < MAX_SERVOS /\ assigned g j.

Definition scheduler_ok (g : Globals) : Prop :=
  schedule_consistent g /\ bitmask_backed g.

(* ------------------------------------------------------------------ *)
(** ** Sketches as runs of events *)

(** What a sketch can do: call a method on one of its servo objects, or be
    interrupted by the timer. *)
Inductive method : Type :=
| Attach (pin minUs maxUs value : Z)
| Detach
| Write (value : Z)
| WriteMicroseconds (value : Z)
| Read
| ReadMicroseconds
| Attached.

Inductive event : Type :=
| Call (o : nat) (m : method)
| TimerTick.

Definition discard {S A} (m : M S A) : M S unit := m ;; ret tt.

Definition run_method (m : method) : M Env unit :=
  match m with
  | Attach pin minUs maxUs value => discard (attach pin minUs maxUs value)
  | Detach => detach
  | Write value => write value
  | WriteMicroseconds value => writeMicroseconds value
  | Read => discard read
  | ReadMicroseconds => discard readMicroseconds
  | Attached => discard attached
  end.

Definition step (ev : event) : M Program unit :=
  match ev with
  | Call o m => call o (run_method m)
  | TimerTick => interrupt software_servo_timer_tick
  end.

(** Running a list of events; a fault ends the run. *)
Fixpoint run_events (evs : list event) : M Program unit :=
  match evs with
  | [] => ret tt
  | ev :: evs' => step ev ;; run_events evs'
  end.

Definition program_ok (p : Program) : Prop :=
  globals_ok (statics p) /\ Forall handle_ok (objects p).

(* ------------------------------------------------------------------ *)
(** ** Example states *)

(** A state in which one servo is attached to slot 0 on pin 5. *)
Definition one_servo_globals : Globals :=
  {| software_servo_timer := Armed 20 true;
     software_servo_pins := [5; -1; -1; -1];
     software_servo_pulse_lenght := [1500; 1500; 1500; 1500];
     software_servo_current_servo := 0;
     software_servo_map := 1;
     software_servo_next_servo := [0; 0; 0; 0];
     software_servo_time_to_next_pulse := [20; 15; 10; 5];
     hw_trace := [DigitalWrite 5 LOW; PinModeOutput 5] |}.

Definition one_servo_handle : SoftwareServo :=
  {| _id := 0; _attached := true; _minUs := 1000; _maxUs := 2000 |}.

(** Five declared servos, the first four attached to pins 4, 5, 12, 13. *)
Definition four_servos : Program :=
  {| objects :=
       [ mkServo 0 true 1000 2000; mkServo 1 true 1000 2000;
         mkServo 2 true 1000 2000; mkServo 3 true 1000 2000;
         new_SoftwareServo ];
     statics :=
       {| software_servo_timer := Armed 5 true;
          software_servo_pins := [4; 5; 12; 13];
          software_servo_pulse_lenght := [1500; 1500; 1500; 1500];
          software_servo_current_servo := 0;
          software_servo_map := 15;
          software_servo_next_servo := [1; 2; 3; 0];
          software_servo_time_to_next_pulse := [5; 5; 5; 5];
          hw_trace :=
            [DigitalWrite 4 LOW; PinModeOutput 4;
             DigitalWrite 5 LOW; PinModeOutput 5;
             DigitalWrite 12 LOW; PinModeOutput 12;
             DigitalWrite 13 LOW; PinModeOutput 13] |} |}.

(** A short session of one servo: attach, two writes, a tick, detach and
    a last tick; and the state it ends in. *)
Definition session : list event :=
  [ Call 0%nat (Attach 5 1000 2000 1500); Call 0%nat (Write 90);
    Call 0%nat (WriteMicroseconds 1700); TimerTick;
    Call 0%nat Detach; TimerTick ].

Definition after_session : Program :=
  Eval vm_compute in
    match run_events session (boot 1) with
    | Ok (_, p) => p
    | Fault _ => boot 1
    end.

(* ------------------------------------------------------------------ *)
(** ** Running the code on four-element arrays *)

(** Closed arithmetic met while a function is run on a state whose array
    elements are variables is evaluated; everything else is left alone. *)
Ltac is_pos_lit p :=
  lazymatch p with
  | xH => idtac
  | xO ?q => is_pos_lit q
  | xI ?q => is_pos_lit q
  end.

Ltac is_Z_lit z :=
  lazymatch z with
  | Z0 => idtac
  | Zpos ?p => is_pos_lit p
  | Zneg ?p => is_pos_lit p
  end.

Ltac is_nat_lit n :=
  lazymatch n with
  | O => idtac
  | S ?m => is_nat_lit m
  end.

Ltac is_bool_lit b :=
  lazymatch b with
  | true => idtac
  | false => idtac
  end.

Ltac eval_Z t := let v := eval vm_compute in t in is_Z_lit v; change t with v.
Ltac eval_nat t := let v := eval vm_compute in t in is_nat_lit v; change t with v.
Ltac eval_bool t := let v := eval vm_compute in t in is_bool_lit v; change t with v.

Ltac ground :=
  repeat match goal with
    | |- context [Z.rem ?a ?b] => eval_Z (Z.rem a b)
    | |- context [Z.add ?a ?b] => eval_Z (Z.add a b)
    | |- context [Z.mul ?a ?b] => eval_Z (Z.mul a b)
    | |- context [Z.of_nat ?a] => eval_Z (Z.of_nat a)
    | |- context [Z.to_nat ?a] => eval_nat (Z.to_nat a)
    | |- context [Z.eqb ?a ?b] => eval_bool (Z.eqb a b)
    | |- context [Z.leb ?a ?b] => eval_bool (Z.leb a b)
    | |- context [Z.ltb ?a ?b] => eval_bool (Z.ltb a b)
    | |- context [Z.gtb ?a ?b] => eval_bool (Z.gtb a b)
    end.

Ltac run :=
  repeat first [progress cbn | progress ground
               | progress unfold array_get, array_set].

(** Splits a sized state into its fields and its sixteen array elements. *)
Ltac sized g Hs :=
  let H1 := fresh in let H2 := fresh in let H3 := fresh in
  let H4 := fresh in
  destruct g as [tm pins pulse cur map nxt tim tr];
  destruct Hs as (H1 & H2 & H3 & H4);
  cbn [software_servo_pins software_servo_pulse_lenght
       software_servo_next_servo software_servo_time_to_next_pulse] in *;
  destruct pins as [|p0 [|p1 [|p2 [|p3 [|? ?]]]]]; try discriminate H1;
  destruct pulse as [|w0 [|w1 [|w2 [|w3 [|? ?]]]]]; try discriminate H2;
  destruct nxt as [|n0 [|n1 [|n2 [|n3 [|? ?]]]]]; try discriminate H3;
  destruct tim as [|t0 [|t1 [|t2 [|t3 [|? ?]]]]]; try discriminate H4;
  clear H1 H2 H3 H4.

Ltac split_if :=
  match goal with
  | |- context [if ?b then _ else _] => destruct b eqn:?
  end.

(** Runs code whose branches test pins against -1, splitting on each pin
    the first time it is tested. *)
Ltac run_pins :=
  repeat first
    [ progress run
    | rewrite andb_true_r
    | match goal with
      | H : (?p =? -1) = _ |- context [?p =? -1] => rewrite H
      end
    | match goal with
      | |- context [?p =? -1] => is_var p; destruct (p =? -1) eqn:?
      end ].

(* ================================================================== *)
(** * Properties *)

(* ------------------------------------------------------------------ *)
(** ** Machine arithmetic inside the 32-bit range *)

Section IntRange.

Lemma to_int_id (x : Z) : is_int x -> to_int x = x.
Proof.
  unfold is_int, to_int. intros Hx.
  rewrite Z.mod_small; lia.
Qed.

Lemma to_uint_small (x : Z) : 0 <= x < 2 ^ 32 -> to_uint x = x.
Proof. intros Hx. unfold to_uint. now rewrite Z.mod_small. Qed.

Lemma to_uint16_small (x : Z) : is_uint16 x -> to_uint16 x = x.
Proof. intros Hx. unfold to_uint16. now rewrite Z.mod_small. Qed.

Lemma to_uint16_range (x : Z) : is_uint16 (to_uint16 x).
Proof. unfold is_uint16, to_uint16. apply Z.mod_pos_bound. lia. Qed.

Lemma idiv_positive (x y : Z) :
  0 < y -> idiv x y = Ok (to_int (Z.quot x y)).
Proof.
  intros Hy. unfold idiv.
  destruct (Z.eqb_spec y 0) as [Hz | _]; [lia|].
  destruct (Z.eqb_spec y (-1)) as [Hm | _]; [lia|].
  rewrite andb_false_r. reflexivity.
Qed.

End IntRange.

(* ------------------------------------------------------------------ *)
(** ** Rounding division *)

Section Rounding.

Lemma scale_spec (x n m : Z) :
  0 < n ->
  2 * n * scale x n m <= 2 * x * m + n < 2 * n * scale x n m + 2 * n.
Proof.
  intros Hn. unfold scale.
  pose proof (Z.div_mod (x * m * 2) n ltac:(lia)) as Hq.
  pose proof (Z.mod_pos_bound (x * m * 2) n Hn) as Hr.
  set (q := x * m * 2 / n) in *.
  pose proof (Z.div_mod (q + 1) 2 ltac:(lia)) as Hh.
  pose proof (Z.mod_pos_bound (q + 1) 2 ltac:(lia)) as Hs.
  set (y := (q + 1) / 2) in *.
  nia.
Qed.

Lemma scale_unique (x n m y : Z) :
  0 < n ->
  2 * n * y <= 2 * x * m + n < 2 * n * y + 2 * n ->
  scale x n m = y.
Proof.
  intros Hn Hy.
  pose proof (scale_spec x n m Hn) as Hs.
  set (z := scale x n m) in *.
  nia.
Qed.

Lemma scale_nonneg (x n m : Z) : 0 < n -> 0 <= x -> 0 <= m -> 0 <= scale x n m.
Proof.
  intros Hn Hx Hm.
  pose proof (scale_spec x n m Hn) as Hs.
  set (z := scale x n m) in *. nia.
Qed.

Lemma scale_le (x n m : Z) : 0 < n -> 0 <= m -> x <= n -> scale x n m <= m.
Proof.
  intros Hn Hm Hx.
  pose proof (scale_spec x n m Hn) as Hs.
  set (z := scale x n m) in *. nia.
Qed.

(** Scaling into the wider range and back recovers the value. *)
Lemma scale_back (x n m : Z) :
  0 < n -> n <= m -> scale (scale x n m) m n = x.
Proof.
  intros Hn Hnm.
  pose proof (scale_spec x n m Hn) as Hs.
  set (y := scale x n m) in *.
  apply scale_unique; [lia|].
  split; [lia|].
  destruct (Z.eq_dec n m) as [-> | Hne]; [|lia].
  destruct (Z_le_gt_dec y x) as [Hyx | Hyx]; nia.
Qed.

(** Whatever the two ranges, a third scaling reproduces the first. *)
Lemma scale_there_back_there (x n m : Z) :
  0 < n -> 0 < m ->
  scale (scale (scale x n m) m n) n m = scale x n m.
Proof.
  intros Hn Hm.
  destruct (Z_le_gt_dec n m) as [Hle | Hgt].
  - rewrite (scale_back x n m) by lia. reflexivity.
  - apply scale_back; lia.
Qed.

End Rounding.

(* ------------------------------------------------------------------ *)
(** ** [improved_map] on the values the handle passes to it *)

Section ImprovedMap.

(** Without a zero input range and without overflow, [improved_map] is
    [scale] shifted by the two lower bounds. *)
Lemma improved_map_scale (value minIn maxIn minOut maxOut : Z) :
  is_uint16 minIn -> is_uint16 maxIn -> is_uint16 minOut -> is_uint16 maxOut ->
  minIn < maxIn -> minOut <= maxOut -> minIn <= value <= maxIn ->
  (value - minIn) * (maxOut - minOut) * 2 < 2 ^ 30 ->
  improved_map value minIn maxIn minOut maxOut =
  Ok (scale (value - minIn) (maxIn - minIn) (maxOut - minOut) + minOut).
Proof.
  unfold is_uint16. intros HmI HMI HmO HMO Hin Hout Hv Hbig.
  set (n := maxIn - minIn). set (m := maxOut - minOut).
  set (d := value - minIn).
  assert (Hn : 0 < n < 2 ^ 16) by (subst n; lia).
  assert (Hm : 0 <= m < 2 ^ 16) by (subst m; lia).
  assert (Hd : 0 <= d <= n) by (subst d n; lia).
  assert (Hdm : 0 <= d * m) by nia.
  assert (Hq : 0 <= d * m * 2 / n <= d * m * 2).
  { split; [apply Z.div_pos; lia|].
    apply Z.div_le_upper_bound; [lia|]. nia. }
  assert (Hh : 0 <= (d * m * 2 / n + 1) / 2 <= d * m * 2 / n + 1).
  { split; [apply Z.div_pos; lia|].
    apply Z.div_le_upper_bound; lia. }
  assert (Hs : scale d n m <= m) by (apply scale_le; lia).
  unfold improved_map, isub, iadd, imul.
  fold n m d.
  rewrite (to_int_id n) by (unfold is_int; lia).
  rewrite (to_int_id m) by (unfold is_int; lia).
  rewrite (to_int_id d) by (unfold is_int; lia).
  rewrite (to_int_id (1 * 2)) by (unfold is_int; lia).
  change (1 * 2) with 2.
  rewrite (to_int_id (d * m)) by (unfold is_int; lia).
  rewrite (to_int_id (d * m * 2)) by (unfold is_int; fold m d in Hbig; lia).
  rewrite (idiv_positive (d * m * 2) n) by lia.
  cbn [result_bind].
  rewrite (Z.quot_div_nonneg (d * m * 2) n) by lia.
  rewrite (to_int_id (d * m * 2 / n)) by (unfold is_int; fold m d in Hbig; lia).
  rewrite (to_int_id (d * m * 2 / n + 1)) by (unfold is_int; fold m d in Hbig; lia).
  rewrite (idiv_positive (d * m * 2 / n + 1) 2) by lia. cbn [result_bind].
  rewrite (Z.quot_div_nonneg (d * m * 2 / n + 1) 2) by lia.
  fold (scale d n m) in *.
  rewrite (to_int_id (scale d n m)) by (unfold is_int; lia).
  rewrite (to_int_id (scale d n m + minOut)) by (unfold is_int; lia).
  reflexivity.
Qed.

(** A zero input range makes the helper divide by zero. *)
Lemma improved_map_zero_range (value minIn minOut maxOut : Z) :
  improved_map value minIn minIn minOut maxOut = Fault DivideByZero.
Proof.
  unfold improved_map, idiv, isub.
  rewrite Z.sub_diag. reflexivity.
Qed.

Lemma angle_to_us_scale (minUs maxUs a : Z) :
  is_uint16 minUs -> is_uint16 maxUs -> minUs <= maxUs -> 0 <= a <= 180 ->
  angle_to_us minUs maxUs a = Ok (scale a 180 (maxUs - minUs) + minUs).
Proof.
  unfold is_uint16. intros Hmn Hmx Hle Ha.
  unfold angle_to_us.
  rewrite improved_map_scale; unfold is_uint16; try lia.
  - now rewrite Z.sub_0_r.
  - nia.
Qed.

Lemma us_to_angle_scale (minUs maxUs us : Z) :
  is_uint16 minUs -> is_uint16 maxUs -> minUs < maxUs ->
  minUs <= us <= maxUs ->
  us_to_angle minUs maxUs us = Ok (scale (us - minUs) (maxUs - minUs) 180).
Proof.
  unfold is_uint16. intros Hmn Hmx Hlt Hus.
  unfold us_to_angle.
  rewrite improved_map_scale; unfold is_uint16; try lia.
  now rewrite Z.sub_0_r, Z.add_0_r.
Qed.

(** With a pulse range of at least 180 microseconds the angle itself is
    recovered; a narrower range cannot tell all 181 angles apart. *)
Lemma angle_recovered_wide (minUs maxUs a : Z) :
  is_uint16 minUs -> is_uint16 maxUs -> minUs + 180 <= maxUs -> 0 <= a <= 180 ->
  result_bind (angle_to_us minUs maxUs a) (us_to_angle minUs maxUs) = Ok a.
Proof.
  unfold is_uint16. intros Hmn Hmx Hw Ha.
  set (r := maxUs - minUs).
  pose proof (scale_nonneg a 180 r ltac:(lia) ltac:(lia) ltac:(subst r; lia)) as H0.
  pose proof (scale_le a 180 r ltac:(lia) ltac:(subst r; lia) ltac:(lia)) as H1.
  rewrite angle_to_us_scale by (unfold is_uint16; lia).
  cbn [result_bind]. fold r.
  rewrite us_to_angle_scale by (unfold is_uint16; subst r; lia).
  fold r. replace (scale a 180 r + minUs - minUs) with (scale a 180 r) by lia.
  rewrite scale_back by (subst r; lia). reflexivity.
Qed.

Lemma angle_lost_narrow :
  result_bind (angle_to_us 200 250 1) (us_to_angle 200 250) = Ok 0.
Proof. vm_compute. reflexivity. Qed.

End ImprovedMap.

(** C5 (as amended): for every angle [a] of [0,180] and every calibration
    [minUs < maxUs] of the [uint16_t] range, mapping the angle to
    microseconds yields a value [us], and mapping [us] back to an angle and
    that angle again to microseconds yields exactly [us]; both directions are
    the calls of [improved_map] made by [write] and [read]. *)
Theorem angle_us_angle_us_stable (minUs maxUs a : Z) :
  is_uint16 minUs -> is_uint16 maxUs -> minUs < maxUs -> 0 <= a <= 180 ->
  exists us,
    angle_to_us minUs maxUs a = Ok us /\
    result_bind
      (result_bind (angle_to_us minUs maxUs a) (us_to_angle minUs maxUs))
      (angle_to_us minUs maxUs) = Ok us.
Proof.
  intros Hmn Hmx Hlt Ha.
  set (r := maxUs - minUs).
  assert (Hr : 0 < r) by (subst r; lia).
  exists (scale a 180 r + minUs).
  rewrite (angle_to_us_scale minUs maxUs a) by (auto; lia).
  fold r. split; [reflexivity|]. cbn [result_bind].
  pose proof (scale_nonneg a 180 r ltac:(lia) ltac:(lia) ltac:(lia)) as H0.
  pose proof (scale_le a 180 r ltac:(lia) ltac:(lia) ltac:(lia)) as H1.
  rewrite (us_to_angle_scale minUs maxUs) by (auto; subst r; lia).
  cbn [result_bind]. fold r.
  replace (scale a 180 r + minUs - minUs) with (scale a 180 r) by lia.
  pose proof (scale_nonneg (scale a 180 r) r 180
                ltac:(lia) ltac:(lia) ltac:(lia)) as H2.
  pose proof (scale_le (scale a 180 r) r 180
                ltac:(lia) ltac:(lia) ltac:(lia)) as H3.
  rewrite (angle_to_us_scale minUs maxUs) by (auto; lia).
  fold r. rewrite scale_there_back_there by lia.
  reflexivity.
Qed.

Lemma angle_us_angle_us_stable_witness :
  exists us,
    angle_to_us 544 2400 37 = Ok us /\
    result_bind
      (result_bind (angle_to_us 544 2400 37) (us_to_angle 544 2400))
      (angle_to_us 544 2400) = Ok us.
Proof.
  apply (angle_us_angle_us_stable 544 2400 37); unfold is_uint16; lia.
Defined.

(** C5, the claim as written, fails where the calibration has
    [minUs = maxUs]: the map back to an angle divides by zero. *)
Lemma angle_us_angle_us_degenerate :
  is_uint16 1500 /\ 1500 <= 1500 /\ 0 <= 90 <= 180 /\
  angle_to_us 1500 1500 90 = Ok 1500 /\
  result_bind
    (result_bind (angle_to_us 1500 1500 90) (us_to_angle 1500 1500))
    (angle_to_us 1500 1500) <> angle_to_us 1500 1500 90.
Proof.
  unfold is_uint16. repeat split; try lia.
  vm_compute. discriminate.
Qed.

(* ------------------------------------------------------------------ *)
(** ** Array accesses within bounds *)

Section Arrays.

Lemma array_get_ok (a : list Z) (i : Z) :
  0 <= i < Z.of_nat (length a) ->
  exists v, array_get a i = Ok v /\ a !! Z.to_nat i = Some v.
Proof.
  intros Hi. unfold array_get.
  destruct (Z.leb_spec 0 i) as [_ | Hneg]; [|lia].
  destruct (a !! Z.to_nat i) as [v|] eqn:E; [eauto|].
  apply lookup_ge_None in E. lia.
Qed.

Lemma array_set_ok (a : list Z) (i v : Z) :
  0 <= i < Z.of_nat (length a) ->
  array_set a i v = Ok (<[Z.to_nat i := v]> a).
Proof.
  intros Hi. unfold array_set.
  destruct (Z.leb_spec 0 i) as [_ | Hneg]; [|lia].
  destruct (Z.ltb_spec i (Z.of_nat (length a))) as [_ | Hge]; [|lia].
  reflexivity.
Qed.

Lemma array_get_set_same (a : list Z) (i v : Z) :
  0 <= i < Z.of_nat (length a) ->
  array_get (<[Z.to_nat i := v]> a) i = Ok v.
Proof.
  intros Hi. unfold array_get.
  destruct (Z.leb_spec 0 i) as [_ | Hneg]; [|lia].
  rewrite list_lookup_insert_eq by lia. reflexivity.
Qed.

Lemma array_get_set_other (a : list Z) (i j v : Z) :
  0 <= i -> 0 <= j -> i <> j ->
  array_get (<[Z.to_nat i := v]> a) j = array_get a j.
Proof.
  intros Hi Hj Hne. unfold array_get.
  rewrite list_lookup_insert_ne by lia. reflexivity.
Qed.

Lemma sized_index (a : list Z) (i : Z) :
  length a = Z.to_nat MAX_SERVOS -> 0 <= i < MAX_SERVOS ->
  0 <= i < Z.of_nat (length a).
Proof. intros -> Hi. unfold MAX_SERVOS in *. lia. Qed.

Lemma slot_index (x : Z) : 0 <= x -> 0 <= Z.rem x MAX_SERVOS < MAX_SERVOS.
Proof. intros Hx. apply Z.rem_bound_pos; unfold MAX_SERVOS; lia. Qed.

End Arrays.

(* ------------------------------------------------------------------ *)
(** ** The Schedule Builder always returns, and touches the Schedule only *)

Section ScheduleBuilder.

Lemma schedule_only_refl (g : Globals) : schedule_only g g.
Proof. repeat split. Qed.

Lemma schedule_only_trans (g1 g2 g3 : Globals) :
  schedule_only g1 g2 -> schedule_only g2 g3 -> schedule_only g1 g3.
Proof.
  unfold schedule_only.
  intros (A1 & A2 & A3 & A4 & A5 & A6) (B1 & B2 & B3 & B4 & B5 & B6).
  repeat split; congruence.
Qed.

Lemma record_successor (g : Globals) (i nxt t : Z) :
  globals_ok g -> 0 <= i < MAX_SERVOS -> 0 <= nxt < MAX_SERVOS ->
  exists g',
    (store software_servo_next_servo set_next_servo i nxt ;;
     store software_servo_time_to_next_pulse set_time_to_next_pulse i t ;;
     ret 1) g = Ok (1, g') /\
    schedule_only g g' /\ globals_ok g' /\
    software_servo_next_servo g' =
      <[Z.to_nat i := nxt]> (software_servo_next_servo g) /\
    software_servo_time_to_next_pulse g' =
      <[Z.to_nat i := t]> (software_servo_time_to_next_pulse g).
Proof.
  intros ((Hp & Hw & Hn & Ht) & Hc & Hnx) Hi Hnxt.
  cbn [bind store gets lift modify ret].
  rewrite array_set_ok by (apply sized_index; assumption).
  cbn [software_servo_time_to_next_pulse set_next_servo].
  rewrite array_set_ok by (apply sized_index; assumption).
  eexists. split; [reflexivity|].
  split; [repeat split|]. split; [|split; reflexivity].
  repeat split; cbn; rewrite ?length_insert; try assumption; try apply Hc.
  apply Forall_insert; assumption.
Qed.

Lemma scan_successor_total (n : nat) :
  forall (i ii t f : Z) (g : Globals),
    globals_ok g -> 0 <= i < MAX_SERVOS -> 0 <= ii ->
    exists r g',
      scan_successor n i ii t f g = Ok (r, g') /\
      schedule_only g g' /\ globals_ok g'.
Proof.
  induction n as [|n IH]; intros i ii t f g Hg Hi Hii.
  - exists f, g. split; [reflexivity|]. split; [apply schedule_only_refl|exact Hg].
  - cbn [scan_successor]. cbn [bind load gets lift].
    pose proof (slot_index (ii + i + 1) ltac:(lia)) as Hidx.
    destruct (array_get_ok (software_servo_pins g)
                (Z.rem (ii + i + 1) MAX_SERVOS)) as (p & -> & _).
    { apply sized_index; [apply Hg | exact Hidx]. }
    destruct ((p =? -1) && (f =? 0)).
    + apply IH; [exact Hg | exact Hi | lia].
    + destruct (record_successor g i (Z.rem (ii + i + 1) MAX_SERVOS) t
                  Hg Hi Hidx) as (g' & E & Hs & Hok & _).
      exists 1, g'. auto.
Qed.

Lemma scan_servos_total (n : nat) :
  forall (i finded : Z) (g : Globals),
    globals_ok g -> 0 <= i -> i + Z.of_nat n <= MAX_SERVOS ->
    exists r g',
      scan_servos n i finded g = Ok (r, g') /\
      schedule_only g g' /\ globals_ok g'.
Proof.
  induction n as [|n IH]; intros i finded g Hg Hi Hn.
  - exists finded, g. split; [reflexivity|]. split; [apply schedule_only_refl|exact Hg].
  - cbn [scan_servos bind].
    destruct (scan_successor_total (Z.to_nat MAX_SERVOS) i 0 REFRESH_INTERVAL 0 g)
      as (find & g1 & -> & Hs1 & Hg1); [exact Hg | lia | lia |].
    destruct (IH (i + 1) (finded + find) g1) as (r & g2 & E & Hs2 & Hg2);
      [exact Hg1 | lia | lia |].
    exists r, g2. split; [exact E|].
    split; [eapply schedule_only_trans; eassumption | exact Hg2].
Qed.

(** The Schedule Builder returns on every well-formed state and changes
    nothing but the [next] and [delay] arrays. *)
Lemma find_times_between_pulses_total (g : Globals) :
  globals_ok g ->
  exists finded g',
    find_times_between_pulses g = Ok (finded, g') /\
    schedule_only g g' /\ globals_ok g'.
Proof.
  intros Hg. apply scan_servos_total; [exact Hg | lia | reflexivity].
Qed.

End ScheduleBuilder.

(* ------------------------------------------------------------------ *)
(** ** A single assigned slot *)

Lemma slot_cases (i : Z) :
  0 <= i < MAX_SERVOS -> i = 0 \/ i = 1 \/ i = 2 \/ i = 3.
Proof. unfold MAX_SERVOS. lia. Qed.

(** C6: when exactly one slot [i] of the Channel Table has a pin assigned,
    the Schedule Builder returns and leaves [delay[i]] equal to one full
    cycle, [MAX_SERVOS * REFRESH_INTERVAL], and [next[i] = i]. *)
Theorem single_channel_schedule (g : Globals) (i : Z) :
  arrays_sized g ->
  0 <= i < MAX_SERVOS ->
  assigned g i ->
  (forall j, 0 <= j < MAX_SERVOS -> j <> i -> unassigned g j) ->
  exists finded g',
    find_times_between_pulses g = Ok (finded, g') /\
    array_get (software_servo_time_to_next_pulse g') i =
      Ok (MAX_SERVOS * REFRESH_INTERVAL) /\
    array_get (software_servo_next_servo g') i = Ok i.
Proof.
  intros Hs Hi (p & Hp & Hne) Hothers.
  apply Z.eqb_neq in Hne.
  pose proof (Hothers 0 ltac:(unfold MAX_SERVOS; lia)) as E0.
  pose proof (Hothers 1 ltac:(unfold MAX_SERVOS; lia)) as E1.
  pose proof (Hothers 2 ltac:(unfold MAX_SERVOS; lia)) as E2.
  pose proof (Hothers 3 ltac:(unfold MAX_SERVOS; lia)) as E3.
  clear Hothers. unfold unassigned in *.
  apply slot_cases in Hi.
  sized g Hs.
  destruct Hi as [-> | [-> | [-> | ->]]];
    first [specialize (E0 ltac:(lia)); injection E0 as -> | clear E0];
    first [specialize (E1 ltac:(lia)); injection E1 as -> | clear E1];
    first [specialize (E2 ltac:(lia)); injection E2 as -> | clear E2];
    first [specialize (E3 ltac:(lia)); injection E3 as -> | clear E3];
    injection Hp as ->;
    unfold find_times_between_pulses;
    repeat first [rewrite Hne | progress run];
    do 2 eexists; (split; [reflexivity|]); run; split; reflexivity.
Qed.

Lemma single_channel_schedule_witness :
  exists finded g',
    find_times_between_pulses (set_pins [-1; 7; -1; -1] initial_globals) =
      Ok (finded, g') /\
    array_get (software_servo_time_to_next_pulse g') 1 =
      Ok (MAX_SERVOS * REFRESH_INTERVAL) /\
    array_get (software_servo_next_servo g') 1 = Ok 1.
Proof.
  apply (single_channel_schedule (set_pins [-1; 7; -1; -1] initial_globals) 1).
  - repeat split; reflexivity.
  - unfold MAX_SERVOS. lia.
  - exists 7. split; [reflexivity | lia].
  - intros j Hj Hne. unfold MAX_SERVOS in Hj.
    assert (Hc : j = 0 \/ j = 2 \/ j = 3) by lia.
    destruct Hc as [-> | [-> | ->]]; reflexivity.
Defined.

(* ------------------------------------------------------------------ *)
(** ** The Pulse Emitter *)

(** C8: every invocation of the Pulse Emitter returns and leaves the
    Channel Table (pins, pulse widths, active bitmask) and the Schedule
    ([next] and [delay]) as they were; of the scheduler's variables only
    the cursor may change (besides, the timer is re-armed or disarmed and
    the pin is pulsed). *)
Theorem timer_tick_frame (g : Globals) :
  globals_ok g ->
  exists g',
    software_servo_timer_tick g = Ok (tt, g') /\
    software_servo_pins g' = software_servo_pins g /\
    software_servo_pulse_lenght g' = software_servo_pulse_lenght g /\
    software_servo_map g' = software_servo_map g /\
    software_servo_next_servo g' = software_servo_next_servo g /\
    software_servo_time_to_next_pulse g' = software_servo_time_to_next_pulse g.
Proof.
  intros (Hs & Hc & _).
  apply slot_cases in Hc.
  sized g Hs. cbn in Hc.
  unfold software_servo_timer_tick.
  destruct Hc as [-> | [-> | [-> | ->]]];
    repeat first [progress run | split_if];
    eexists; (split; [reflexivity|]); cbn; repeat split; reflexivity.
Qed.

Lemma timer_tick_frame_witness :
  exists g',
    software_servo_timer_tick
      (set_map 2 (set_pins [-1; 7; -1; -1] initial_globals)) = Ok (tt, g') /\
    software_servo_pins g' = [-1; 7; -1; -1] /\
    software_servo_pulse_lenght g' =
      software_servo_pulse_lenght initial_globals /\
    software_servo_map g' = 2 /\
    software_servo_next_servo g' = [1; 2; 3; 0] /\
    software_servo_time_to_next_pulse g' =
      software_servo_time_to_next_pulse initial_globals.
Proof.
  apply (timer_tick_frame (set_map 2 (set_pins [-1; 7; -1; -1] initial_globals))).
  split; [repeat split; reflexivity|].
  split; [unfold MAX_SERVOS; cbn; lia|].
  cbn. unfold MAX_SERVOS. repeat constructor; lia.
Defined.

(* ------------------------------------------------------------------ *)
(** ** The Channel Handle *)

Section Handle.

Lemma globals_ok_set_pulse_lenght (g : Globals) (i v : Z) :
  globals_ok g ->
  globals_ok
    (set_pulse_lenght (<[Z.to_nat i := v]> (software_servo_pulse_lenght g)) g).
Proof.
  intros ((Hp & Hw & Hn & Ht) & Hc).
  split; [|exact Hc].
  repeat split; cbn; rewrite ?length_insert; assumption.
Qed.

Lemma globals_ok_set_pins (g : Globals) (i v : Z) :
  globals_ok g ->
  globals_ok (set_pins (<[Z.to_nat i := v]> (software_servo_pins g)) g).
Proof.
  intros ((Hp & Hw & Hn & Ht) & Hc).
  split; [|exact Hc].
  repeat split; cbn; rewrite ?length_insert; assumption.
Qed.

Lemma globals_ok_set_map (g : Globals) (m : Z) :
  globals_ok g -> globals_ok (set_map m g).
Proof. intros Hg. exact Hg. Qed.

Lemma globals_ok_set_timer (g : Globals) (t : os_timer_t) :
  globals_ok g -> globals_ok (set_timer t g).
Proof. intros Hg. exact Hg. Qed.

Lemma globals_ok_emit (g : Globals) (e : hw_event) :
  globals_ok g -> globals_ok (emit e g).
Proof. intros Hg. exact Hg. Qed.

(** [writeMicroseconds] on a bound handle: the clamped value lands in the
    handle's slot, the Schedule is rebuilt and the timer armed or not. *)
Lemma writeMicroseconds_attached (h : SoftwareServo) (g : Globals) (v : Z) :
  globals_ok g -> _attached h = true -> 0 <= _id h < MAX_SERVOS ->
  exists g',
    writeMicroseconds v (mkEnv h g) = Ok (tt, mkEnv h g') /\
    software_servo_pulse_lenght g' =
      <[Z.to_nat (_id h) := constrain v (_minUs h) (_maxUs h)]>
        (software_servo_pulse_lenght g) /\
    software_servo_pins g' = software_servo_pins g /\
    hw_trace g' = hw_trace g /\
    globals_ok g'.
Proof.
  intros Hg Hatt Hid.
  unfold writeMicroseconds.
  cbn [bind field gets this globals]. rewrite Hatt.
  cbn [bind field gets this globals on_globals store lift modify].
  rewrite array_set_ok by (apply sized_index; [apply Hg | exact Hid]).
  set (w := constrain v (_minUs h) (_maxUs h)).
  set (g1 := set_pulse_lenght _ g).
  assert (Hg1 : globals_ok g1) by (apply globals_ok_set_pulse_lenght; exact Hg).
  destruct (find_times_between_pulses_total g1 Hg1)
    as (finded & g2 & E & (S1 & S2 & S3 & S4 & S5 & S6) & Hg2).
  cbn [globals this]. rewrite E.
  destruct (finded >? 0).
  - cbn [bind on_globals gets modify globals this os_timer_disarm
           os_timer_setfn ret load lift os_timer_arm].
    cbn [software_servo_current_servo software_servo_time_to_next_pulse
         set_timer set_map].
    destruct (array_get_ok (software_servo_time_to_next_pulse g2)
                (software_servo_current_servo g2)) as (t & -> & _).
    { apply sized_index; [apply Hg2 | apply Hg2]. }
    eexists. split; [reflexivity|].
    cbn. rewrite S3, S2, S6. repeat split; try reflexivity; apply Hg2.
  - cbn [bind on_globals gets modify globals this os_timer_disarm].
    eexists. split; [reflexivity|].
    cbn. rewrite S3, S2, S6. repeat split; try reflexivity; apply Hg2.
Qed.

Lemma writeMicroseconds_unattached (h : SoftwareServo) (g : Globals) (v : Z) :
  _attached h = false ->
  writeMicroseconds v (mkEnv h g) = Ok (tt, mkEnv h g).
Proof.
  intros Hatt. unfold writeMicroseconds.
  cbn [bind field gets this]. rewrite Hatt. reflexivity.
Qed.

Lemma readMicroseconds_unattached (h : SoftwareServo) (g : Globals) :
  _attached h = false ->
  readMicroseconds (mkEnv h g) = Ok (0, mkEnv h g).
Proof.
  intros Hatt. unfold readMicroseconds.
  cbn [bind field gets this]. rewrite Hatt. reflexivity.
Qed.

Lemma readMicroseconds_attached (h : SoftwareServo) (g : Globals) (w : Z) :
  _attached h = true ->
  array_get (software_servo_pulse_lenght g) (_id h) = Ok w ->
  readMicroseconds (mkEnv h g) = Ok (w, mkEnv h g).
Proof.
  intros Hatt Hw. unfold readMicroseconds.
  cbn [bind field gets this]. rewrite Hatt.
  cbn [bind field gets this globals on_globals load lift]. rewrite Hw.
  reflexivity.
Qed.

(** The Arduino [constrain] is the usual clamp when the bounds are
    ordered, and its result lies between them. *)
Lemma constrain_clamp (v lo hi : Z) :
  lo <= hi -> constrain v lo hi = Z.max lo (Z.min v hi).
Proof.
  intros Hle. unfold constrain.
  destruct (Z.ltb_spec v lo); [lia|].
  destruct (Z.gtb_spec v hi); lia.
Qed.

Lemma constrain_bounds (v lo hi : Z) :
  lo <= hi -> lo <= constrain v lo hi <= hi.
Proof. intros Hle. rewrite constrain_clamp by exact Hle. lia. Qed.

End Handle.

(** C3 (as amended): on a handle that is attached, [writeMicroseconds v]
    followed by [readMicroseconds] returns [v] clamped to the handle's
    calibration bounds. *)
Theorem write_then_read_microseconds (h : SoftwareServo) (g : Globals) (v : Z) :
  globals_ok g -> _attached h = true -> 0 <= _id h < MAX_SERVOS ->
  exists e,
    (writeMicroseconds v ;; readMicroseconds) (mkEnv h g) =
      Ok (constrain v (_minUs h) (_maxUs h), e).
Proof.
  intros Hg Hatt Hid.
  destruct (writeMicroseconds_attached h g v Hg Hatt Hid)
    as (g' & E & Hw & _ & _ & Hg').
  cbn [bind]. rewrite E.
  rewrite (readMicroseconds_attached h g' (constrain v (_minUs h) (_maxUs h)));
    [eexists; reflexivity | exact Hatt |].
  rewrite Hw. apply array_get_set_same.
  apply sized_index; [apply Hg | exact Hid].
Qed.

(** That state is the one [attach(5)] produces after start-up. *)
Lemma one_servo_reached :
  attach_pin 5 (mkEnv new_SoftwareServo initial_globals) =
  Ok (5, mkEnv one_servo_handle one_servo_globals).
Proof. vm_compute. reflexivity. Qed.

Lemma one_servo_globals_ok : globals_ok one_servo_globals.
Proof.
  split; [repeat split; reflexivity|].
  split; [unfold MAX_SERVOS; cbn; lia|].
  cbn. unfold MAX_SERVOS. repeat constructor; lia.
Defined.

Lemma write_then_read_microseconds_witness :
  exists e,
    (writeMicroseconds 2500 ;; readMicroseconds)
      (mkEnv one_servo_handle one_servo_globals) =
      Ok (constrain 2500 1000 2000, e).
Proof.
  apply (write_then_read_microseconds one_servo_handle one_servo_globals 2500).
  - exact one_servo_globals_ok.
  - reflexivity.
  - unfold MAX_SERVOS. cbn. lia.
Defined.

(** C3, the claim as written for every handle, fails on a handle that is
    not attached: the value is dropped and [readMicroseconds] returns 0. *)
Lemma write_then_read_microseconds_unattached :
  ~ exists e,
      (writeMicroseconds 1500 ;; readMicroseconds)
        (mkEnv new_SoftwareServo initial_globals) =
        Ok (constrain 1500 (_minUs new_SoftwareServo) (_maxUs new_SoftwareServo), e).
Proof.
  intros (e & He). vm_compute in He. discriminate He.
Qed.

Section Write.

(** Mapping from the angle range never divides by zero: the input range
    is the constant 180. *)
Lemma improved_map_from_angle_ok (value minOut maxOut : Z) :
  exists us, improved_map value 0 180 minOut maxOut = Ok us.
Proof.
  unfold improved_map.
  change (isub 180 0) with 180. change (imul 1 2) with 2.
  rewrite (idiv_positive _ 180) by lia. cbn [result_bind].
  rewrite (idiv_positive _ 2) by lia. cbn [result_bind].
  eexists. reflexivity.
Qed.

Lemma write_unattached (h : SoftwareServo) (g : Globals) (v : Z) :
  _attached h = false ->
  write v (mkEnv h g) = Ok (tt, mkEnv h g).
Proof.
  intros Hatt. unfold write. cbn [bind].
  destruct (v <? 200).
  - cbn [bind field gets this lift].
    destruct (improved_map_from_angle_ok (constrain v 0 180) (_minUs h) (_maxUs h))
      as (us & ->).
    apply writeMicroseconds_unattached. exact Hatt.
  - cbn [ret]. apply writeMicroseconds_unattached. exact Hatt.
Qed.

Lemma write_attached (h : SoftwareServo) (g : Globals) (v : Z) :
  globals_ok g -> _attached h = true -> 0 <= _id h < MAX_SERVOS ->
  exists g',
    write v (mkEnv h g) = Ok (tt, mkEnv h g') /\
    software_servo_pins g' = software_servo_pins g /\
    hw_trace g' = hw_trace g /\
    globals_ok g'.
Proof.
  intros Hg Hatt Hid. unfold write. cbn [bind].
  destruct (v <? 200).
  - cbn [bind field gets this lift].
    destruct (improved_map_from_angle_ok (constrain v 0 180) (_minUs h) (_maxUs h))
      as (us & ->).
    destruct (writeMicroseconds_attached h g us Hg Hatt Hid)
      as (g' & E & _ & Hp & Ht & Hg').
    exists g'. auto.
  - cbn [ret].
    destruct (writeMicroseconds_attached h g v Hg Hatt Hid)
      as (g' & E & _ & Hp & Ht & Hg').
    exists g'. auto.
Qed.

(** [read] on an unbound handle maps the 0 of [readMicroseconds]. *)
Lemma read_unattached (h : SoftwareServo) (g : Globals) :
  _attached h = false ->
  read (mkEnv h g) =
  lift (us_to_angle (_minUs h) (_maxUs h) 0) (mkEnv h g).
Proof.
  intros Hatt. unfold read. cbn [bind].
  rewrite readMicroseconds_unattached by exact Hatt.
  reflexivity.
Qed.

End Write.

(** C4, at the input where the code departs from the claim: [read] on a
    handle that was never attached returns -179, not 0.  (The rest of the
    claim holds: see [write_unattached], [writeMicroseconds_unattached] and
    [readMicroseconds_unattached].) *)
Theorem read_never_attached :
  read (mkEnv new_SoftwareServo initial_globals) =
  Ok (-179, mkEnv new_SoftwareServo initial_globals).
Proof. vm_compute. reflexivity. Qed.

(* ------------------------------------------------------------------ *)
(** ** Claiming and releasing slots *)

Section Attach.

Variables (pin value : Z).

(** The search stops at the first free slot and fills it. *)
Lemma claim_slot_first_free (k : Z) (n : nat) :
  forall (i : Z) (h : SoftwareServo) (g : Globals),
    globals_ok g -> first_free g k ->
    0 <= i <= k -> k < i + Z.of_nat n ->
    claim_slot n i pin value (mkEnv h g) =
    Ok (tt,
        set_id k
          (mkEnv h
             (set_pulse_lenght
                (<[Z.to_nat k := value]> (software_servo_pulse_lenght g))
                (set_pins (<[Z.to_nat k := pin]> (software_servo_pins g)) g)))).
Proof.
  induction n as [|n IH]; intros i h g Hg (Hk & Hfree & Hbelow) Hi Hn; [lia|].
  cbn [claim_slot]. cbn [bind on_globals load gets lift globals this].
  destruct (Z.eq_dec i k) as [-> | Hne].
  - rewrite Hfree. change (-1 =? -1) with true.
    cbn [bind on_globals store gets lift modify globals this].
    rewrite array_set_ok by (apply sized_index; [apply Hg | exact Hk]).
    cbn [software_servo_pulse_lenght set_pins].
    rewrite array_set_ok by (apply sized_index; [apply Hg | exact Hk]).
    reflexivity.
  - destruct (Hbelow i ltac:(lia)) as (p & -> & Hp).
    apply Z.eqb_neq in Hp. rewrite Hp.
    apply IH; [exact Hg | exact (conj Hk (conj Hfree Hbelow)) | lia | lia].
Qed.

(** With every slot taken, the search changes nothing. *)
Lemma claim_slot_full (n : nat) :
  forall (i : Z) (h : SoftwareServo) (g : Globals),
    table_full g -> 0 <= i -> i + Z.of_nat n <= MAX_SERVOS ->
    claim_slot n i pin value (mkEnv h g) = Ok (tt, mkEnv h g).
Proof.
  induction n as [|n IH]; intros i h g Hfull Hi Hn; [reflexivity|].
  cbn [claim_slot]. cbn [bind on_globals load gets lift globals this].
  destruct (Hfull i ltac:(lia)) as (p & -> & Hp).
  apply Z.eqb_neq in Hp. rewrite Hp.
  apply IH; [exact Hfull | lia | lia].
Qed.

End Attach.

Section AttachCall.

Variables (pin minUs maxUs value : Z).

(** [attach] on an unbound handle with a slot free: the lowest free slot
    [k] is claimed, the calibration is clamped, the initial value is
    written; the result is the pin as a [uint8_t]. *)
Lemma attach_claims_first_free (h : SoftwareServo) (g : Globals) (k : Z) :
  globals_ok g -> _attached h = false -> first_free g k ->
  exists e,
    attach pin minUs maxUs value (mkEnv h g) = Ok (to_uint8 pin, e) /\
    _id (this e) = k /\
    _attached (this e) = true /\
    _maxUs (this e) = Z.max 250 (Z.min 3000 (to_uint16 maxUs)) /\
    _minUs (this e) = Z.max 200 (Z.min (_maxUs (this e)) (to_uint16 minUs)) /\
    software_servo_pins (globals e) =
      <[Z.to_nat k := pin]> (software_servo_pins g) /\
    globals_ok (globals e).
Proof.
  intros Hg Hatt Hk.
  unfold attach. cbn [bind field gets this]. rewrite Hatt.
  cbn [negb bind on_globals digitalWrite pinMode_OUTPUT modify globals this].
  rewrite (claim_slot_first_free pin value k);
    [| exact Hg | exact Hk | destruct Hk as (Hk & _); lia
     | destruct Hk as ((_ & Hk) & _); unfold MAX_SERVOS in *; cbn; lia ].
  cbn [bind field gets this set_id _id].
  destruct Hk as (Hk & _).
  destruct (Z.eqb_spec k (-1)) as [Hneg | _]; [lia|].
  cbn [bind modify ret set_attached set_maxUs set_minUs field gets this globals
         _id _attached _minUs _maxUs].
  unfold set_minUs, set_maxUs, set_attached, set_id.
  cbn [this globals _id _attached _minUs _maxUs].
  match goal with
  | |- context [write value (mkEnv ?hh ?gg)] => set (h' := hh); set (g' := gg)
  end.
  destruct (write_attached h' g' value) as (g2 & -> & Hp & _ & Hg2).
  - subst g'. set (g0 := emit _ (emit _ g)).
    apply (globals_ok_set_pulse_lenght
             (set_pins (<[Z.to_nat k := pin]> (software_servo_pins g0)) g0)
             k value).
    apply globals_ok_set_pins. exact Hg.
  - reflexivity.
  - exact Hk.
  - eexists. split; [reflexivity|].
    cbn [this globals _id _attached _minUs _maxUs]. subst h'.
    cbn [_id _attached _minUs _maxUs].
    rewrite Hp. subst g'.
    repeat split; try reflexivity; apply Hg2.
Qed.

(** [attach] on an unbound handle with every slot taken fails with 0;
    only the two pin-setup calls made before the search have happened. *)
Lemma attach_full (h : SoftwareServo) (g : Globals) :
  table_full g -> _attached h = false -> _id h = -1 ->
  attach pin minUs maxUs value (mkEnv h g) =
  Ok (0, mkEnv h (emit (PinModeOutput pin) (emit (DigitalWrite pin LOW) g))).
Proof.
  intros Hfull Hatt Hid.
  unfold attach. cbn [bind field gets this]. rewrite Hatt.
  cbn [negb bind on_globals digitalWrite pinMode_OUTPUT modify globals this].
  rewrite claim_slot_full; [| exact Hfull | lia | unfold MAX_SERVOS; cbn; lia].
  cbn [bind field gets this]. rewrite Hid.
  reflexivity.
Qed.

End AttachCall.

Section Detach.

(** [detach] never touches the pin assignments. *)
Lemma detach_keeps_pins (h : SoftwareServo) (g : Globals) (e : Env) :
  detach (mkEnv h g) = Ok (tt, e) ->
  software_servo_pins (globals e) = software_servo_pins g.
Proof.
  unfold detach. cbn [bind field gets this].
  destruct (_attached h).
  - cbn [bind field gets this on_globals modify globals store lift].
    cbn [software_servo_pulse_lenght set_map].
    destruct (array_set (software_servo_pulse_lenght g) (_id h)
                DEFAULT_NEUTRAL_PULSE_WIDTH) as [a|f]; [|discriminate].
    cbn. intros [= <-]. reflexivity.
  - cbn. intros [= <-]. reflexivity.
Qed.

(** [detach] on a bound handle: the slot's bit is cleared, its width is
    reset, the handle becomes unbound. *)
Lemma detach_attached (h : SoftwareServo) (g : Globals) :
  globals_ok g -> _attached h = true -> 0 <= _id h < MAX_SERVOS ->
  detach (mkEnv h g) =
  Ok (tt,
      mkEnv (mkServo (-1) false (_minUs h) (_maxUs h))
        (set_pulse_lenght
           (<[Z.to_nat (_id h) := DEFAULT_NEUTRAL_PULSE_WIDTH]>
              (software_servo_pulse_lenght g))
           (set_map
              (Z.land (software_servo_map g) (Z.lnot (Z.shiftl 1 (_id h))))
              g))).
Proof.
  intros Hg Hatt Hid.
  unfold detach. cbn [bind field gets this]. rewrite Hatt.
  cbn [bind field gets this on_globals modify globals store lift].
  cbn [software_servo_pulse_lenght set_map].
  rewrite array_set_ok by (apply sized_index; [apply Hg | exact Hid]).
  reflexivity.
Qed.

Lemma detach_unattached (h : SoftwareServo) (g : Globals) :
  _attached h = false -> detach (mkEnv h g) = Ok (tt, mkEnv h g).
Proof.
  intros Hatt. unfold detach. cbn [bind field gets this].
  rewrite Hatt. reflexivity.
Qed.

End Detach.

(* ------------------------------------------------------------------ *)
(** ** Start-up and example states *)

Lemma initial_globals_ok : globals_ok initial_globals.
Proof.
  split; [repeat split; reflexivity|].
  split; [unfold MAX_SERVOS; cbn; lia|].
  cbn. unfold MAX_SERVOS. repeat constructor; lia.
Defined.

Lemma initial_first_free : first_free initial_globals 0.
Proof.
  split; [unfold MAX_SERVOS; lia|].
  split; [reflexivity|].
  intros j Hj. lia.
Defined.

Lemma four_servos_reached :
  (call 0%nat (attach_pin 4) ;; call 1%nat (attach_pin 5) ;;
   call 2%nat (attach_pin 12) ;; call 3%nat (attach_pin 13)) (boot 5) =
  Ok (13, four_servos).
Proof. vm_compute. reflexivity. Qed.

Lemma four_servos_full : table_full (statics four_servos).
Proof.
  intros j Hj. apply slot_cases in Hj.
  destruct Hj as [-> | [-> | [-> | ->]]];
    eexists; (split; [reflexivity | lia]).
Defined.

(* ------------------------------------------------------------------ *)
(** ** Capacity *)

(** C7: when every slot of the Channel Table is taken and the calling
    handle is unbound, [attach] returns 0; every handle object, the Channel
    Table, the Schedule, the cursor and the timer are as before.  (The pin
    passed in has been driven low and made an output.) *)
Theorem attach_beyond_capacity
    (p : Program) (o : nat) (h : SoftwareServo) (pin minUs maxUs value : Z) :
  objects p !! o = Some h ->
  _attached h = false -> _id h = -1 ->
  table_full (statics p) ->
  exists p',
    call o (attach pin minUs maxUs value) p = Ok (0, p') /\
    objects p' = objects p /\
    software_servo_pins (statics p') = software_servo_pins (statics p) /\
    software_servo_pulse_lenght (statics p') =
      software_servo_pulse_lenght (statics p) /\
    software_servo_map (statics p') = software_servo_map (statics p) /\
    software_servo_next_servo (statics p') =
      software_servo_next_servo (statics p) /\
    software_servo_time_to_next_pulse (statics p') =
      software_servo_time_to_next_pulse (statics p) /\
    software_servo_current_servo (statics p') =
      software_servo_current_servo (statics p) /\
    software_servo_timer (statics p') = software_servo_timer (statics p) /\
    hw_trace (statics p') =
      hw_trace (statics p) ++ [DigitalWrite pin LOW; PinModeOutput pin].
Proof.
  intros Hobj Hatt Hid Hfull.
  unfold call. rewrite Hobj.
  rewrite attach_full by assumption.
  eexists. split; [reflexivity|].
  cbn [objects statics this globals].
  split; [apply list_insert_id; exact Hobj|].
  cbn. rewrite <- app_assoc. repeat split; reflexivity.
Qed.

Lemma attach_beyond_capacity_witness :
  exists p',
    call 4%nat (attach 14 1000 2000 1500) four_servos = Ok (0, p') /\
    objects p' = objects four_servos /\
    software_servo_pins (statics p') = [4; 5; 12; 13] /\
    software_servo_pulse_lenght (statics p') = [1500; 1500; 1500; 1500] /\
    software_servo_map (statics p') = 15 /\
    software_servo_next_servo (statics p') = [1; 2; 3; 0] /\
    software_servo_time_to_next_pulse (statics p') = [5; 5; 5; 5] /\
    software_servo_current_servo (statics p') = 0 /\
    software_servo_timer (statics p') = Armed 5 true /\
    hw_trace (statics p') =
      hw_trace (statics four_servos) ++ [DigitalWrite 14 LOW; PinModeOutput 14].
Proof.
  apply (attach_beyond_capacity four_servos 4%nat new_SoftwareServo 14 1000 2000 1500).
  - reflexivity.
  - reflexivity.
  - reflexivity.
  - exact four_servos_full.
Defined.

(** C9: [attach] on pin 0 with a slot free succeeds (the slot is claimed,
    the handle is attached) and returns 0, the value that [attach] returns
    when it fails for lack of a slot. *)
Theorem attach_pin_zero_returns_failure_value :
  (exists e,
     attach_pin 0 (mkEnv new_SoftwareServo initial_globals) = Ok (0, e) /\
     _attached (this e) = true /\
     _id (this e) = 0 /\
     software_servo_pins (globals e) = [0; -1; -1; -1]) /\
  (exists e,
     attach_pin 14 (mkEnv new_SoftwareServo (statics four_servos)) = Ok (0, e) /\
     _attached (this e) = false /\
     software_servo_pins (globals e) = [4; 5; 12; 13]).
Proof.
  split; eexists; (split; [vm_compute; reflexivity|]); repeat split; reflexivity.
Qed.

(* ------------------------------------------------------------------ *)
(** ** Slots are not released *)

(** C1, at the input where the code departs from the claim: a servo is
    attached and detached, then a second one is attached.  The second one
    gets slot 1, and slot 0 still holds the pin of the first: [detach] has
    not freed the slot.  (The first half of the claim holds: see
    [attach_claims_first_free].) *)
Theorem detach_does_not_free_slot :
  exists p,
    (call 0%nat (attach_pin 5) ;; call 0%nat detach ;;
     call 1%nat (attach_pin 6)) (boot 2) = Ok (6, p) /\
    _id <$> (objects p !! 1%nat) = Some 1 /\
    _attached <$> (objects p !! 0%nat) = Some false /\
    software_servo_pins (statics p) = [5; 6; -1; -1].
Proof.
  eexists. split; [vm_compute; reflexivity|]. repeat split; reflexivity.
Qed.

(** The same defect seen from further away: one servo attached and
    detached four times has used up the table, and a fifth [attach] fails
    although no servo is attached. *)
Lemma slots_leak :
  exists p,
    (call 0%nat (attach_pin 4) ;; call 0%nat detach ;;
     call 0%nat (attach_pin 4) ;; call 0%nat detach ;;
     call 0%nat (attach_pin 4) ;; call 0%nat detach ;;
     call 0%nat (attach_pin 4) ;; call 0%nat detach ;;
     call 0%nat (attach_pin 4)) (boot 1) = Ok (0, p) /\
    objects p = [new_SoftwareServo] /\
    software_servo_pins (statics p) = [4; 4; 4; 4].
Proof.
  eexists. split; [vm_compute; reflexivity|]. split; reflexivity.
Qed.

(** And the pin of a detached servo keeps being pulsed while another servo
    is attached. *)
Lemma detached_pin_still_pulsed :
  exists p,
    (call 0%nat (attach_pin 5) ;; call 1%nat (attach_pin 6) ;;
     call 0%nat detach ;; interrupt software_servo_timer_tick) (boot 2) =
      Ok (tt, p) /\
    _attached <$> (objects p !! 0%nat) = Some false /\
    hw_trace (statics p) =
      [DigitalWrite 5 LOW; PinModeOutput 5; DigitalWrite 6 LOW; PinModeOutput 6;
       DigitalWrite 5 HIGH; DelayUs 1500; DigitalWrite 5 LOW].
Proof.
  eexists. split; [vm_compute; reflexivity|]. split; reflexivity.
Qed.

(* ------------------------------------------------------------------ *)
(** ** Detaching the last active channel *)

(** C2, at the input where the code departs from the claim: one servo is
    attached and then detached.  [detach] does not run the Schedule
    Builder and leaves the pin of slot 0 in the table (the defect of C1),
    so the count of the Schedule Builder is not driven to 0: on the state
    that [detach] leaves, the Schedule Builder counts [MAX_SERVOS] and
    rebuilds the very Schedule that is there.  The active bitmask is 0,
    and the next invocation of the Pulse Emitter disarms the timer: that
    half of the claim holds. *)
Theorem detach_keeps_builder_count :
  exists p p',
    (call 0%nat (attach_pin 5) ;; call 0%nat detach) (boot 1) = Ok (tt, p) /\
    objects p = [new_SoftwareServo] /\
    software_servo_pins (statics p) = [5; -1; -1; -1] /\
    software_servo_map (statics p) = 0 /\
    find_times_between_pulses (statics p) = Ok (MAX_SERVOS, statics p) /\
    interrupt software_servo_timer_tick p = Ok (tt, p') /\
    software_servo_timer (statics p') = Disarmed.
Proof.
  eexists. eexists. split; [vm_compute; reflexivity|].
  repeat split; reflexivity.
Qed.

(** The emitter's half in general: when the active bitmask holds the bit
    of the handle's slot and no other, [detach] on that handle clears the
    bitmask to 0, and the next invocation of the Pulse Emitter disarms the
    timer instead of re-arming it. *)
Theorem detach_last_channel_disarms (p : Program) (o : nat) (h : SoftwareServo) :
  globals_ok (statics p) ->
  objects p !! o = Some h ->
  _attached h = true -> 0 <= _id h < MAX_SERVOS ->
  software_servo_map (statics p) = Z.shiftl 1 (_id h) ->
  exists p1 p2,
    call o detach p = Ok (tt, p1) /\
    software_servo_map (statics p1) = 0 /\
    interrupt software_servo_timer_tick p1 = Ok (tt, p2) /\
    software_servo_timer (statics p2) = Disarmed /\
    software_servo_current_servo (statics p2) =
      software_servo_current_servo (statics p).
Proof.
  intros Hg Hobj Hatt Hid Hmap.
  unfold call. rewrite Hobj.
  rewrite detach_attached by assumption.
  rewrite Hmap, Z.land_lnot_diag.
  eexists. eexists. split; [reflexivity|].
  cbn [statics globals software_servo_map set_pulse_lenght set_map].
  split; [reflexivity|].
  unfold interrupt, software_servo_timer_tick.
  cbn [statics bind gets software_servo_map set_pulse_lenght set_map].
  change (0 =? 0) with true.
  cbn [bind ret os_timer_disarm modify].
  split; [reflexivity|].
  split; reflexivity.
Qed.

Lemma detach_last_channel_disarms_witness :
  exists p1 p2,
    call 0%nat detach (mkProgram [one_servo_handle] one_servo_globals) =
      Ok (tt, p1) /\
    software_servo_map (statics p1) = 0 /\
    interrupt software_servo_timer_tick p1 = Ok (tt, p2) /\
    software_servo_timer (statics p2) = Disarmed /\
    software_servo_current_servo (statics p2) = 0.
Proof.
  apply (detach_last_channel_disarms
           (mkProgram [one_servo_handle] one_servo_globals) 0%nat one_servo_handle).
  - exact one_servo_globals_ok.
  - reflexivity.
  - reflexivity.
  - unfold MAX_SERVOS. cbn. lia.
  - reflexivity.
Defined.

(* ------------------------------------------------------------------ *)
(** ** A calibration with equal bounds *)

(** C10, the claim as written, fails in two places.  [write] with an angle
    does not divide by zero under a calibration with equal bounds: it calls
    the helper with the input range [0,180].  And [attach] with
    [min >= max] does not always produce equal bounds: with 150 and 100 it
    stores 200 and 250. *)
Lemma write_with_equal_bounds_returns :
  (exists e e',
     attach_pin_min_max 5 2000 1500 (mkEnv new_SoftwareServo initial_globals) =
       Ok (5, e) /\
     _minUs (this e) = 1500 /\ _maxUs (this e) = 1500 /\
     90 < 200 /\
     write 90 e = Ok (tt, e') /\
     improved_map (constrain 90 0 180) 0 180 (_minUs (this e)) (_maxUs (this e))
       = Ok 1500) /\
  (exists e,
     attach_pin_min_max 5 150 100 (mkEnv new_SoftwareServo initial_globals) =
       Ok (5, e) /\
     150 >= 100 /\
     _minUs (this e) = 200 /\ _maxUs (this e) = 250).
Proof.
  split.
  - eexists. eexists. split; [vm_compute; reflexivity|].
    split; [reflexivity|]. split; [reflexivity|]. split; [lia|].
    split; vm_compute; reflexivity.
  - eexists. split; [vm_compute; reflexivity|].
    split; [lia|]. split; reflexivity.
Qed.

(** C10 (as amended): [attach(pin, min, max)] with [min >= max >= 250]
    on an unbound handle with a slot free stores equal bounds
    [_minUs = _maxUs]; on the handle so calibrated, [read] calls
    [improved_map] with [minIn = maxIn] and divides by zero, while [write]
    returns for every value. *)
Theorem equal_bounds_read_divides_by_zero
    (h : SoftwareServo) (g : Globals) (k pin minUs maxUs value : Z) :
  globals_ok g -> _attached h = false -> first_free g k ->
  is_uint16 minUs -> is_uint16 maxUs -> 250 <= maxUs <= minUs ->
  exists e,
    attach pin minUs maxUs value (mkEnv h g) = Ok (to_uint8 pin, e) /\
    _minUs (this e) = _maxUs (this e) /\
    read e = Fault DivideByZero /\
    forall v, exists e', write v e = Ok (tt, e').
Proof.
  intros Hg Hatt Hk Hmn Hmx Hle.
  destruct (attach_claims_first_free pin minUs maxUs value h g k Hg Hatt Hk)
    as ([h' g'] & E & Hid & Hatt' & Hmax & Hmin & _ & Hg').
  cbn [this globals] in *.
  rewrite (to_uint16_small maxUs Hmx) in Hmax.
  rewrite (to_uint16_small minUs Hmn) in Hmin.
  assert (Heq : _minUs h' = _maxUs h') by lia.
  assert (Hk' : 0 <= _id h' < MAX_SERVOS) by (rewrite Hid; apply Hk).
  exists (mkEnv h' g'). split; [exact E|]. split; [exact Heq|]. split.
  - destruct (array_get_ok (software_servo_pulse_lenght g') (_id h'))
      as (us & Hus & _); [apply sized_index; [apply Hg' | exact Hk']|].
    unfold read. cbn [bind].
    rewrite (readMicroseconds_attached h' g' us Hatt' Hus).
    cbn [bind field gets this lift].
    rewrite Heq, improved_map_zero_range. reflexivity.
  - intros v.
    destruct (write_attached h' g' v Hg' Hatt' Hk') as (g2 & E2 & _).
    eexists. exact E2.
Qed.

Lemma equal_bounds_read_divides_by_zero_witness :
  exists e,
    attach 5 2000 1500 1500 (mkEnv new_SoftwareServo initial_globals) =
      Ok (to_uint8 5, e) /\
    _minUs (this e) = _maxUs (this e) /\
    read e = Fault DivideByZero /\
    forall v, exists e', write v e = Ok (tt, e').
Proof.
  apply (equal_bounds_read_divides_by_zero
           new_SoftwareServo initial_globals 0 5 2000 1500 1500).
  - exact initial_globals_ok.
  - reflexivity.
  - exact initial_first_free.
  - unfold is_uint16. lia.
  - unfold is_uint16. lia.
  - lia.
Defined.

(* ------------------------------------------------------------------ *)
(** ** The invariant of every reachable state *)

Section Invariant.

Lemma first_free_or_full (g : Globals) :
  arrays_sized g -> table_full g \/ exists k, first_free g k.
Proof.
  intros Hs. sized g Hs.
  unfold table_full, first_free, assigned, unassigned, MAX_SERVOS.
  cbn [software_servo_pins].
  destruct (Z.eq_dec p0 (-1)) as [-> | H0].
  { right. exists 0. split; [lia|]. split; [reflexivity|]. intros j Hj. lia. }
  destruct (Z.eq_dec p1 (-1)) as [-> | H1].
  { right. exists 1. split; [lia|]. split; [reflexivity|]. intros j Hj.
    assert (j = 0) as -> by lia. eauto. }
  destruct (Z.eq_dec p2 (-1)) as [-> | H2].
  { right. exists 2. split; [lia|]. split; [reflexivity|]. intros j Hj.
    assert (Hc : j = 0 \/ j = 1) by lia. destruct Hc as [-> | ->]; eauto. }
  destruct (Z.eq_dec p3 (-1)) as [-> | H3].
  { right. exists 3. split; [lia|]. split; [reflexivity|]. intros j Hj.
    assert (Hc : j = 0 \/ j = 1 \/ j = 2) by lia.
    destruct Hc as [-> | [-> | ->]]; eauto. }
  left. intros j Hj.
  assert (Hc : j = 0 \/ j = 1 \/ j = 2 \/ j = 3) by lia.
  destruct Hc as [-> | [-> | [-> | ->]]]; eauto.
Qed.

(** [attach] on a handle that is already bound keeps the binding and only
    recalibrates and writes. *)
Lemma attach_attached (h : SoftwareServo) (g : Globals) (pin minUs maxUs value : Z) :
  globals_ok g -> _attached h = true -> 0 <= _id h < MAX_SERVOS ->
  exists h' g',
    attach pin minUs maxUs value (mkEnv h g) = Ok (to_uint8 pin, mkEnv h' g') /\
    _id h' = _id h /\ _attached h' = true /\
    _maxUs h' = Z.max 250 (Z.min 3000 (to_uint16 maxUs)) /\
    _minUs h' = Z.max 200 (Z.min (_maxUs h') (to_uint16 minUs)) /\
    software_servo_pins g' = software_servo_pins g /\
    globals_ok g'.
Proof.
  intros Hg Hatt Hid.
  unfold attach. cbn [bind field gets this]. rewrite Hatt.
  cbn [negb bind ret modify field gets this].
  unfold set_minUs, set_maxUs.
  cbn [this globals _id _attached _minUs _maxUs].
  match goal with
  | |- context [write value (mkEnv ?hh ?gg)] => set (h' := hh)
  end.
  destruct (write_attached h' g value Hg Hatt Hid) as (g2 & -> & Hp & _ & Hg2).
  exists h', g2. repeat split; try reflexivity; try assumption; apply Hg2.
Qed.

Lemma timer_tick_ok (g : Globals) :
  globals_ok g ->
  exists g', software_servo_timer_tick g = Ok (tt, g') /\ globals_ok g'.
Proof.
  intros (Hs & Hc & Hn).
  apply slot_cases in Hc.
  sized g Hs. cbn in Hc, Hn.
  apply Forall_cons in Hn as (B0 & Hn).
  apply Forall_cons in Hn as (B1 & Hn).
  apply Forall_cons in Hn as (B2 & Hn).
  apply Forall_cons in Hn as (B3 & _).
  unfold software_servo_timer_tick.
  destruct Hc as [-> | [-> | [-> | ->]]];
    repeat first [progress run | split_if];
    eexists; (split; [reflexivity|]);
    (split; [repeat split; reflexivity|]);
    (split; cbn;
     [ rewrite ?to_uint_small by (unfold MAX_SERVOS in *; lia);
       unfold MAX_SERVOS in *; lia
     | repeat (constructor; [assumption|]); constructor ]).
Qed.

Lemma read_only_readMicroseconds (e e' : Env) (r : Z) :
  readMicroseconds e = Ok (r, e') -> e' = e.
Proof.
  unfold readMicroseconds. cbn [bind field gets].
  destruct (_attached (this e)).
  - cbn [bind field gets on_globals load lift].
    destruct (array_get _ _) as [v|f]; [|discriminate].
    destruct e. intros [= _ <-]. reflexivity.
  - intros [= _ <-]. reflexivity.
Qed.

Lemma read_only_read (e e' : Env) (r : Z) :
  read e = Ok (r, e') -> e' = e.
Proof.
  unfold read. cbn [bind].
  destruct (readMicroseconds e) as [[us e1]|f] eqn:E; [|discriminate].
  apply read_only_readMicroseconds in E. subst e1.
  cbn [bind field gets lift].
  destruct (improved_map _ _ _ _ _); [|discriminate].
  intros [= _ <-]. reflexivity.
Qed.

Lemma clamped_calibration (h : SoftwareServo) (mn mx : Z) :
  _maxUs h = Z.max 250 (Z.min 3000 mx) ->
  _minUs h = Z.max 200 (Z.min (_maxUs h) mn) ->
  calibrated h.
Proof. unfold calibrated. intros -> ->. lia. Qed.

(** Every method keeps the handle and the globals well formed. *)
Lemma run_method_ok (m : method) (h : SoftwareServo) (g : Globals) (e : Env) :
  globals_ok g -> handle_ok h ->
  run_method m (mkEnv h g) = Ok (tt, e) ->
  globals_ok (globals e) /\ handle_ok (this e).
Proof.
  intros Hg (Hb & Hc). unfold binding_ok in Hb.
  assert (Hsame : forall g', globals_ok g' ->
            globals_ok (globals (mkEnv h g')) /\ handle_ok (this (mkEnv h g'))).
  { intros g' Hg'. split; [exact Hg'|]. split; [exact Hb | exact Hc]. }
  unfold binding_ok in Hsame.
  destruct (_attached h) eqn:Hatt; destruct m as [pin mn mx v| |v|v| | |];
    cbn [run_method]; try unfold discard; cbn [bind ret].
  - destruct (attach_attached h g pin mn mx v Hg Hatt Hb)
      as (h' & g' & -> & Hid & Hatt' & Hmx & Hmn & _ & Hg').
    intros [= <-]. cbn [this globals]. split; [exact Hg'|]. split.
    + unfold binding_ok. rewrite Hatt', Hid. exact Hb.
    + exact (clamped_calibration h' _ _ Hmx Hmn).
  - rewrite detach_attached by assumption.
    intros [= <-]. cbn [this globals]. split; [|split; [reflexivity | exact Hc]].
    apply (globals_ok_set_pulse_lenght (set_map _ g)). exact Hg.
  - destruct (write_attached h g v Hg Hatt Hb) as (g' & -> & _ & _ & Hg').
    intros [= <-]. exact (Hsame g' Hg').
  - destruct (writeMicroseconds_attached h g v Hg Hatt Hb)
      as (g' & -> & _ & _ & _ & Hg').
    intros [= <-]. exact (Hsame g' Hg').
  - destruct (read (mkEnv h g)) as [[r e1]|f] eqn:E; [|discriminate].
    apply read_only_read in E. subst e1. intros [= <-]. exact (Hsame g Hg).
  - destruct (readMicroseconds (mkEnv h g)) as [[r e1]|f] eqn:E; [|discriminate].
    apply read_only_readMicroseconds in E. subst e1. intros [= <-].
    exact (Hsame g Hg).
  - cbn. intros [= <-]. exact (Hsame g Hg).
  - destruct (first_free_or_full g (proj1 Hg)) as [Hfull | (k & Hk)].
    + rewrite attach_full by assumption.
      intros [= <-]. exact (Hsame _ Hg).
    + destruct (attach_claims_first_free pin mn mx v h g k Hg Hatt Hk)
        as (e1 & -> & Hid & Hatt' & Hmx & Hmn & _ & Hg').
      intros [= <-]. split; [exact Hg'|]. split.
      * unfold binding_ok. rewrite Hatt', Hid. apply Hk.
      * exact (clamped_calibration (this e1) _ _ Hmx Hmn).
  - rewrite detach_unattached by assumption.
    intros [= <-]. exact (Hsame g Hg).
  - rewrite write_unattached by assumption.
    intros [= <-]. exact (Hsame g Hg).
  - rewrite writeMicroseconds_unattached by assumption.
    intros [= <-]. exact (Hsame g Hg).
  - destruct (read (mkEnv h g)) as [[r e1]|f] eqn:E; [|discriminate].
    apply read_only_read in E. subst e1. intros [= <-]. exact (Hsame g Hg).
  - rewrite readMicroseconds_unattached by assumption.
    intros [= <-]. exact (Hsame g Hg).
  - cbn. intros [= <-]. exact (Hsame g Hg).
Qed.

Lemma step_ok (ev : event) (p p' : Program) :
  program_ok p -> step ev p = Ok (tt, p') -> program_ok p'.
Proof.
  intros (Hg & Hobjs). destruct ev as [o m|]; cbn [step].
  - unfold call.
    destruct (objects p !! o) as [h|] eqn:Ho; [|discriminate].
    destruct (run_method m (mkEnv h (statics p))) as [[[] e]|f] eqn:E;
      [|discriminate].
    intros [= <-].
    assert (Hh : handle_ok h).
    { rewrite Forall_lookup in Hobjs. exact (Hobjs o h Ho). }
    destruct (run_method_ok m h (statics p) e Hg Hh E) as (Hg' & Hh').
    split; cbn [statics objects]; [exact Hg'|].
    apply Forall_insert; assumption.
  - unfold interrupt.
    destruct (timer_tick_ok (statics p) Hg) as (g' & -> & Hg').
    intros [= <-]. split; [exact Hg' | exact Hobjs].
Qed.

Lemma boot_ok (n : nat) : program_ok (boot n).
Proof.
  split; [exact initial_globals_ok|].
  cbn [boot objects]. apply Forall_replicate.
  split; [reflexivity|].
  unfold calibrated, new_SoftwareServo, DEFAULT_MIN_PULSE_WIDTH,
    DEFAULT_MAX_PULSE_WIDTH.
  cbn [_minUs _maxUs]. lia.
Qed.

(** Well-formedness holds in every state a sketch can reach. *)
Theorem reachable_ok (n : nat) (evs : list event) (p : Program) :
  run_events evs (boot n) = Ok (tt, p) -> program_ok p.
Proof.
  generalize (boot_ok n). generalize (boot n) as p0.
  induction evs as [|ev evs IH]; intros p0 Hp0.
  - cbn. intros [= <-]. exact Hp0.
  - cbn [run_events bind].
    destruct (step ev p0) as [[[] p1]|f] eqn:E; [|discriminate].
    apply IH. eapply step_ok; eassumption.
Qed.

End Invariant.

(* ================================================================== *)
(** * Further properties of the code *)

(* ------------------------------------------------------------------ *)
(** ** What the Schedule Builder computes *)

Section BuilderResult.

Lemma assigned_same_pins (g g' : Globals) (j : Z) :
  software_servo_pins g' = software_servo_pins g ->
  assigned g' j <-> assigned g j.
Proof. unfold assigned. intros ->. reflexivity. Qed.

Lemma unassigned_same_pins (g g' : Globals) (j : Z) :
  software_servo_pins g' = software_servo_pins g ->
  unassigned g' j <-> unassigned g j.
Proof. unfold unassigned. intros ->. reflexivity. Qed.

(** The inner loop started at offset [ii], all nearer slots being free:
    it records the first slot with a pin, or finds none and leaves the
    state alone. *)
Lemma scan_successor_result (n : nat) :
  forall (i ii t : Z) (g : Globals),
    globals_ok g -> 0 <= i < MAX_SERVOS -> 0 <= ii ->
    (forall d', 1 <= d' < ii + 1 -> unassigned g (Z.rem (i + d') MAX_SERVOS)) ->
    (exists d g',
       ii + 1 <= d < ii + 1 + Z.of_nat n /\
       assigned g (Z.rem (i + d) MAX_SERVOS) /\
       (forall d', 1 <= d' < d -> unassigned g (Z.rem (i + d') MAX_SERVOS)) /\
       scan_successor n i ii t 0 g = Ok (1, g') /\
       schedule_only g g' /\ globals_ok g' /\
       software_servo_next_servo g' =
         <[Z.to_nat i := Z.rem (i + d) MAX_SERVOS]> (software_servo_next_servo g) /\
       software_servo_time_to_next_pulse g' =
         <[Z.to_nat i := t + REFRESH_INTERVAL * (d - ii - 1)]>
           (software_servo_time_to_next_pulse g))
    \/
    ((forall d', 1 <= d' < ii + 1 + Z.of_nat n ->
        unassigned g (Z.rem (i + d') MAX_SERVOS)) /\
     scan_successor n i ii t 0 g = Ok (0, g)).
Proof.
  induction n as [|n IH]; intros i ii t g Hg Hi Hii Hnear.
  - right. split; [|reflexivity]. intros d' Hd'. apply Hnear. lia.
  - cbn [scan_successor]. cbn [bind load gets lift].
    pose proof (slot_index (ii + i + 1) ltac:(lia)) as Hidx.
    destruct (array_get_ok (software_servo_pins g)
                (Z.rem (ii + i + 1) MAX_SERVOS)) as (p & Hp & _).
    { apply sized_index; [apply Hg | exact Hidx]. }
    rewrite Hp. change (0 =? 0) with true.
    destruct (Z.eqb_spec p (-1)) as [-> | Hne]; cbn [andb].
    + destruct (IH i (ii + 1) (t + REFRESH_INTERVAL) g Hg Hi ltac:(lia))
        as [(d & g' & Hd & Ha & Hbelow & E & Hs & Hok & Hnx & Htm) | (Hall & E)].
      * intros d' Hd'. destruct (Z.eq_dec d' (ii + 1)) as [-> | Hlt].
        -- unfold unassigned. replace (i + (ii + 1)) with (ii + i + 1) by lia.
           exact Hp.
        -- apply Hnear. lia.
      * left. exists d, g'. split; [lia|]. split; [exact Ha|].
        split; [exact Hbelow|]. split; [exact E|]. split; [exact Hs|].
        split; [exact Hok|]. split; [exact Hnx|]. rewrite Htm.
        f_equal. lia.
      * right. split; [|exact E]. intros d' Hd'. apply Hall. lia.
    + destruct (record_successor g i (Z.rem (ii + i + 1) MAX_SERVOS) t
                  Hg Hi Hidx) as (g' & E & Hs & Hok & Hnx & Htm).
      left. exists (ii + 1), g'. split; [lia|].
      replace (i + (ii + 1)) with (ii + i + 1) by lia.
      split; [exists p; split; assumption|].
      split; [exact Hnear|]. split; [exact E|]. split; [exact Hs|].
      split; [exact Hok|]. split; [exact Hnx|]. rewrite Htm.
      f_equal. lia.
Qed.

(** Any slot is reached from any other in one to four steps. *)
Lemma steps_between (i j : Z) :
  0 <= i < MAX_SERVOS -> 0 <= j < MAX_SERVOS ->
  exists d, 1 <= d <= MAX_SERVOS /\ Z.rem (i + d) MAX_SERVOS = j.
Proof.
  intros Hi Hj. apply slot_cases in Hi. apply slot_cases in Hj.
  unfold MAX_SERVOS.
  destruct Hi as [-> | [-> | [-> | ->]]]; destruct Hj as [-> | [-> | [-> | ->]]];
    first [ exists 1; split; [lia | reflexivity]
          | exists 2; split; [lia | reflexivity]
          | exists 3; split; [lia | reflexivity]
          | exists 4; split; [lia | reflexivity] ].
Qed.

(** One pass of the inner loop when some slot has a pin. *)
Lemma scan_successor_some (i : Z) (g : Globals) :
  globals_ok g -> 0 <= i < MAX_SERVOS ->
  (exists j, 0 <= j < MAX_SERVOS /\ assigned g j) ->
  exists d g',
    successor_at g i d /\
    scan_successor (Z.to_nat MAX_SERVOS) i 0 REFRESH_INTERVAL 0 g = Ok (1, g') /\
    schedule_only g g' /\ globals_ok g' /\
    software_servo_next_servo g' =
      <[Z.to_nat i := Z.rem (i + d) MAX_SERVOS]> (software_servo_next_servo g) /\
    software_servo_time_to_next_pulse g' =
      <[Z.to_nat i := d * REFRESH_INTERVAL]>
        (software_servo_time_to_next_pulse g).
Proof.
  intros Hg Hi (j & Hj & (pj & Hpj & Hnej)).
  destruct (scan_successor_result (Z.to_nat MAX_SERVOS) i 0 REFRESH_INTERVAL g
              Hg Hi ltac:(lia))
    as [(d & g' & Hd & Ha & Hbelow & E & Hs & Hok & Hnx & Htm) | (Hall & _)].
  - intros d' Hd'. lia.
  - exists d, g'. split.
    { split; [unfold MAX_SERVOS in *; cbn in Hd; lia|]. split; assumption. }
    split; [exact E|]. split; [exact Hs|]. split; [exact Hok|].
    split; [exact Hnx|]. rewrite Htm. f_equal. lia.
  - exfalso. destruct (steps_between i j Hi Hj) as (d & Hd & Hrem).
    specialize (Hall d ltac:(unfold MAX_SERVOS in *; cbn; lia)).
    unfold unassigned in Hall. rewrite Hrem, Hpj in Hall.
    injection Hall as Hall. contradiction.
Qed.

Lemma successor_at_same_pins (g g' : Globals) (i d : Z) :
  software_servo_pins g' = software_servo_pins g ->
  successor_at g' i d -> successor_at g i d.
Proof.
  intros Hp (Hd & Ha & Hbelow).
  split; [exact Hd|]. split.
  - apply (assigned_same_pins g g' _ Hp). exact Ha.
  - intros d' Hd'. apply (unassigned_same_pins g g' _ Hp). apply Hbelow. exact Hd'.
Qed.

(** The outer loop from slot [i] on, the entries below [i] being built. *)
Lemma scan_servos_result (g0 : Globals) (n : nat) :
  forall (i finded : Z) (g : Globals),
    globals_ok g ->
    software_servo_pins g = software_servo_pins g0 ->
    (exists j, 0 <= j < MAX_SERVOS /\ assigned g0 j) ->
    0 <= i -> i + Z.of_nat n <= MAX_SERVOS ->
    (forall j, 0 <= j < i -> entry_built g0 g j) ->
    exists g',
      scan_servos n i finded g = Ok (finded + Z.of_nat n, g') /\
      schedule_only g g' /\ globals_ok g' /\
      forall j, 0 <= j < i + Z.of_nat n -> entry_built g0 g' j.
Proof.
  induction n as [|n IH]; intros i finded g Hg Hp Hsome Hi Hn Hbuilt.
  - exists g. split; [cbn; f_equal; f_equal; lia|].
    split; [apply schedule_only_refl|]. split; [exact Hg|].
    intros j Hj. apply Hbuilt. lia.
  - cbn [scan_servos bind].
    assert (Hsome' : exists j, 0 <= j < MAX_SERVOS /\ assigned g j).
    { destruct Hsome as (j & Hj & Ha). exists j. split; [exact Hj|].
      apply (assigned_same_pins g0 g j Hp). exact Ha. }
    destruct (scan_successor_some i g Hg ltac:(lia) Hsome')
      as (d & g1 & Hd & -> & Hs1 & Hg1 & Hnx & Htm).
    assert (Hp1 : software_servo_pins g1 = software_servo_pins g0).
    { destruct Hs1 as (_ & Hq & _). congruence. }
    destruct (IH (i + 1) (finded + 1) g1 Hg1 Hp1 Hsome ltac:(lia) ltac:(lia))
      as (g' & E & Hs2 & Hg' & Hall).
    + intros j Hj. destruct (Z.eq_dec j i) as [-> | Hne].
      * exists d. split; [exact (successor_at_same_pins g0 g i d Hp Hd)|].
        rewrite Hnx, Htm.
        split; apply array_get_set_same; apply sized_index;
          solve [apply Hg | lia].
      * destruct (Hbuilt j ltac:(lia)) as (dj & Hdj & Hnj & Htj).
        exists dj. split; [exact Hdj|]. rewrite Hnx, Htm.
        rewrite !array_get_set_other by lia. split; assumption.
    + exists g'. split; [rewrite E; f_equal; f_equal; lia|].
      split; [eapply schedule_only_trans; eassumption|].
      split; [exact Hg'|].
      intros j Hj. apply Hall. lia.
Qed.

Lemma scan_successor_none (i : Z) (g : Globals) :
  globals_ok g -> 0 <= i < MAX_SERVOS ->
  (forall j, 0 <= j < MAX_SERVOS -> unassigned g j) ->
  scan_successor (Z.to_nat MAX_SERVOS) i 0 REFRESH_INTERVAL 0 g = Ok (0, g).
Proof.
  intros Hg Hi Hnone.
  destruct (scan_successor_result (Z.to_nat MAX_SERVOS) i 0 REFRESH_INTERVAL g
              Hg Hi ltac:(lia))
    as [(d & g' & Hd & (p & Hp & Hne) & _) | (_ & E)].
  - intros d' Hd'. lia.
  - exfalso.
    pose proof (Hnone (Z.rem (i + d) MAX_SERVOS)
                  (slot_index (i + d) ltac:(lia))) as Hu.
    unfold unassigned in Hu. rewrite Hp in Hu. injection Hu as Hu. contradiction.
  - exact E.
Qed.

Lemma schedule_idle_aux (g : Globals) :
  globals_ok g ->
  (forall j, 0 <= j < MAX_SERVOS -> unassigned g j) ->
  find_times_between_pulses g = Ok (0, g).
Proof.
  intros Hg Hnone.
  unfold find_times_between_pulses.
  change (Z.to_nat MAX_SERVOS) with 4%nat at 1.
  cbn [scan_servos bind].
  rewrite (scan_successor_none 0 g Hg ltac:(unfold MAX_SERVOS; lia) Hnone).
  rewrite (scan_successor_none (0 + 1) g Hg ltac:(unfold MAX_SERVOS; lia) Hnone).
  rewrite (scan_successor_none (0 + 1 + 1) g Hg ltac:(unfold MAX_SERVOS; lia) Hnone).
  rewrite (scan_successor_none (0 + 1 + 1 + 1) g Hg
             ltac:(unfold MAX_SERVOS; lia) Hnone).
  reflexivity.
Qed.

End BuilderResult.

(** X1: when at least one slot has a pin, the Schedule Builder returns
    [MAX_SERVOS] (not the number of assigned slots), changes nothing but
    the Schedule, and leaves for every slot [i] the nearest slot with a pin
    going round from [i + 1] as [next[i]], with a delay of
    [REFRESH_INTERVAL] per step. *)
Theorem schedule_built (g : Globals) :
  globals_ok g ->
  (exists j, 0 <= j < MAX_SERVOS /\ assigned g j) ->
  exists g',
    find_times_between_pulses g = Ok (MAX_SERVOS, g') /\
    schedule_only g g' /\
    forall i, 0 <= i < MAX_SERVOS ->
      exists d,
        successor_at g i d /\
        array_get (software_servo_next_servo g') i =
          Ok (Z.rem (i + d) MAX_SERVOS) /\
        array_get (software_servo_time_to_next_pulse g') i =
          Ok (d * REFRESH_INTERVAL).
Proof.
  intros Hg Hsome.
  destruct (scan_servos_result g (Z.to_nat MAX_SERVOS) 0 0 g Hg eq_refl Hsome
              ltac:(lia) ltac:(reflexivity))
    as (g' & E & Hs & _ & Hall).
  - intros j Hj. lia.
  - exists g'. split; [exact E|]. split; [exact Hs|].
    intros i Hi. apply Hall. exact Hi.
Qed.

Lemma schedule_built_witness :
  exists g',
    find_times_between_pulses one_servo_globals = Ok (MAX_SERVOS, g') /\
    schedule_only one_servo_globals g' /\
    forall i, 0 <= i < MAX_SERVOS ->
      exists d,
        successor_at one_servo_globals i d /\
        array_get (software_servo_next_servo g') i =
          Ok (Z.rem (i + d) MAX_SERVOS) /\
        array_get (software_servo_time_to_next_pulse g') i =
          Ok (d * REFRESH_INTERVAL).
Proof.
  apply (schedule_built one_servo_globals).
  - exact one_servo_globals_ok.
  - exists 0. split; [unfold MAX_SERVOS; lia|].
    exists 5. split; [reflexivity | lia].
Defined.

(** X2: when no slot has a pin, the Schedule Builder returns 0 and writes
    nothing: [next] and [delay] keep their previous values. *)
Theorem schedule_idle (g : Globals) :
  globals_ok g ->
  (forall j, 0 <= j < MAX_SERVOS -> unassigned g j) ->
  find_times_between_pulses g = Ok (0, g).
Proof.
  intros Hg Hnone. apply schedule_idle_aux; assumption.
Qed.

Lemma schedule_idle_witness :
  find_times_between_pulses initial_globals = Ok (0, initial_globals).
Proof.
  apply (schedule_idle initial_globals).
  - exact initial_globals_ok.
  - intros j Hj. apply slot_cases in Hj.
    destruct Hj as [-> | [-> | [-> | ->]]]; reflexivity.
Defined.

(** X3: with a pin in every slot, the rebuilt Schedule gives every slot a
    delay of exactly one [REFRESH_INTERVAL] and the next slot in cyclic
    order as successor. *)
Theorem schedule_full_table (g : Globals) :
  globals_ok g -> table_full g ->
  exists g',
    find_times_between_pulses g = Ok (MAX_SERVOS, g') /\
    forall i, 0 <= i < MAX_SERVOS ->
      array_get (software_servo_next_servo g') i =
        Ok (Z.rem (i + 1) MAX_SERVOS) /\
      array_get (software_servo_time_to_next_pulse g') i = Ok REFRESH_INTERVAL.
Proof.
  intros Hg Hfull.
  destruct (scan_servos_result g (Z.to_nat MAX_SERVOS) 0 0 g Hg eq_refl)
    as (g' & E & _ & _ & Hall).
  - exists 0. split; [unfold MAX_SERVOS; lia|].
    apply Hfull. unfold MAX_SERVOS. lia.
  - lia.
  - reflexivity.
  - intros j Hj. lia.
  - exists g'. split; [exact E|].
    intros i Hi. destruct (Hall i Hi) as (d & (Hd & _ & Hbelow) & Hnx & Htm).
    assert (d = 1) as ->.
    { destruct (Z.eq_dec d 1) as [Heq | Hne]; [exact Heq | exfalso].
      specialize (Hbelow 1 ltac:(lia)).
      destruct (Hfull (Z.rem (i + 1) MAX_SERVOS)
                  (slot_index (i + 1) ltac:(lia))) as (p & Hp & Hnp).
      unfold unassigned in Hbelow. rewrite Hp in Hbelow.
      injection Hbelow as Hbelow. contradiction. }
    split; [exact Hnx|]. rewrite Htm. reflexivity.
Qed.

Lemma schedule_full_table_witness :
  exists g',
    find_times_between_pulses (statics four_servos) = Ok (MAX_SERVOS, g') /\
    forall i, 0 <= i < MAX_SERVOS ->
      array_get (software_servo_next_servo g') i =
        Ok (Z.rem (i + 1) MAX_SERVOS) /\
      array_get (software_servo_time_to_next_pulse g') i = Ok REFRESH_INTERVAL.
Proof.
  apply (schedule_full_table (statics four_servos)).
  - split; [repeat split; reflexivity|].
    split; [unfold MAX_SERVOS; cbn; lia|].
    cbn. unfold MAX_SERVOS. repeat constructor; lia.
  - exact four_servos_full.
Defined.

(* ------------------------------------------------------------------ *)
(** ** What the mapping helper computes *)

Section MappingHelper.

Lemma scale_zero (n m : Z) : 0 < n -> scale 0 n m = 0.
Proof. intros Hn. apply scale_unique; lia. Qed.

Lemma scale_whole (n m : Z) : 0 < n -> scale n n m = m.
Proof. intros Hn. apply scale_unique; [exact Hn | nia]. Qed.

Lemma scale_monotone (x y n m : Z) :
  0 < n -> 0 <= m -> x <= y -> scale x n m <= scale y n m.
Proof.
  intros Hn Hm Hxy.
  pose proof (scale_spec x n m Hn) as Hx.
  pose proof (scale_spec y n m Hn) as Hy.
  set (a := scale x n m) in *. set (b := scale y n m) in *.
  nia.
Qed.

Lemma improved_map_scale_whole_range
    (value minIn maxIn minOut maxOut : Z) :
  is_uint16 minIn -> is_uint16 maxIn -> is_uint16 minOut -> is_uint16 maxOut ->
  minIn < maxIn -> minOut <= maxOut -> minIn <= value <= maxIn ->
  (maxIn - minIn) * (maxOut - minOut) * 2 < 2 ^ 30 ->
  improved_map value minIn maxIn minOut maxOut =
  Ok (scale (value - minIn) (maxIn - minIn) (maxOut - minOut) + minOut).
Proof.
  intros HmI HMI HmO HMO Hin Hout Hv Hbig.
  apply improved_map_scale; try assumption.
  unfold is_uint16 in *. nia.
Qed.

End MappingHelper.

(** X5: for an input inside a non-empty input range (all bounds of the
    [uint16_t] range, no overflow), [improved_map] returns a value inside
    the output range that is the exact linear image rounded to the nearest
    integer: it is off by at most one half of an output unit. *)
Theorem improved_map_nearest (value minIn maxIn minOut maxOut : Z) :
  is_uint16 minIn -> is_uint16 maxIn -> is_uint16 minOut -> is_uint16 maxOut ->
  minIn < maxIn -> minOut <= maxOut -> minIn <= value <= maxIn ->
  (maxIn - minIn) * (maxOut - minOut) * 2 < 2 ^ 30 ->
  exists r,
    improved_map value minIn maxIn minOut maxOut = Ok r /\
    minOut <= r <= maxOut /\
    2 * (maxIn - minIn) * (r - minOut) - (maxIn - minIn)
      <= 2 * (value - minIn) * (maxOut - minOut)
      < 2 * (maxIn - minIn) * (r - minOut) + (maxIn - minIn).
Proof.
  intros HmI HMI HmO HMO Hin Hout Hv Hbig.
  rewrite improved_map_scale_whole_range by assumption.
  set (n := maxIn - minIn). set (m := maxOut - minOut). set (x := value - minIn).
  pose proof (scale_spec x n m ltac:(subst n; lia)) as Hs.
  pose proof (scale_nonneg x n m ltac:(subst n; lia) ltac:(subst x; lia)
                ltac:(subst m; lia)) as H0.
  pose proof (scale_le x n m ltac:(subst n; lia) ltac:(subst m; lia)
                ltac:(subst x n; lia)) as H1.
  eexists. split; [reflexivity|].
  replace (scale x n m + minOut - minOut) with (scale x n m) by lia.
  split; [subst m; lia|]. lia.
Qed.

Lemma improved_map_nearest_witness :
  exists r,
    improved_map 37 0 180 544 2400 = Ok r /\
    544 <= r <= 2400 /\
    2 * (180 - 0) * (r - 544) - (180 - 0)
      <= 2 * (37 - 0) * (2400 - 544)
      < 2 * (180 - 0) * (r - 544) + (180 - 0).
Proof.
  apply (improved_map_nearest 37 0 180 544 2400); unfold is_uint16; lia.
Defined.

(** X6: [improved_map] sends the two ends of a non-empty input range
    exactly to the two ends of the output range. *)
Theorem improved_map_endpoints (minIn maxIn minOut maxOut : Z) :
  is_uint16 minIn -> is_uint16 maxIn -> is_uint16 minOut -> is_uint16 maxOut ->
  minIn < maxIn -> minOut <= maxOut ->
  (maxIn - minIn) * (maxOut - minOut) * 2 < 2 ^ 30 ->
  improved_map minIn minIn maxIn minOut maxOut = Ok minOut /\
  improved_map maxIn minIn maxIn minOut maxOut = Ok maxOut.
Proof.
  intros HmI HMI HmO HMO Hin Hout Hbig.
  rewrite !improved_map_scale_whole_range by (assumption || lia).
  rewrite Z.sub_diag, scale_zero, scale_whole by lia.
  split; f_equal; lia.
Qed.

Lemma improved_map_endpoints_witness :
  improved_map 1000 1000 2000 0 180 = Ok 0 /\
  improved_map 2000 1000 2000 0 180 = Ok 180.
Proof.
  apply (improved_map_endpoints 1000 2000 0 180); unfold is_uint16; lia.
Defined.

(** X7: [improved_map] is monotone: of two inputs inside a non-empty input
    range, the larger one is never mapped below the smaller one. *)
Theorem improved_map_monotone (v1 v2 minIn maxIn minOut maxOut : Z) :
  is_uint16 minIn -> is_uint16 maxIn -> is_uint16 minOut -> is_uint16 maxOut ->
  minIn < maxIn -> minOut <= maxOut ->
  (maxIn - minIn) * (maxOut - minOut) * 2 < 2 ^ 30 ->
  minIn <= v1 -> v1 <= v2 -> v2 <= maxIn ->
  exists r1 r2,
    improved_map v1 minIn maxIn minOut maxOut = Ok r1 /\
    improved_map v2 minIn maxIn minOut maxOut = Ok r2 /\
    r1 <= r2.
Proof.
  intros HmI HMI HmO HMO Hin Hout Hbig H1 H12 H2.
  rewrite !improved_map_scale_whole_range by (assumption || lia).
  do 2 eexists. split; [reflexivity|]. split; [reflexivity|].
  apply Z.add_le_mono_r. apply scale_monotone; lia.
Qed.

Lemma improved_map_monotone_witness :
  exists r1 r2,
    improved_map 36 0 180 1000 2000 = Ok r1 /\
    improved_map 37 0 180 1000 2000 = Ok r2 /\
    r1 <= r2.
Proof.
  apply (improved_map_monotone 36 37 0 180 1000 2000); unfold is_uint16; lia.
Defined.

(* ------------------------------------------------------------------ *)
(** ** The active bitmask *)

Section Bitmask.

Lemma slot_bit (id b : Z) :
  0 <= id -> Z.testbit (Z.shiftl 1 id) b = (id =? b).
Proof.
  intros Hid. rewrite Z.shiftl_1_l. apply Z.pow2_bits_eqb. exact Hid.
Qed.

Lemma clear_slot_bit (map id b : Z) :
  0 <= id ->
  Z.testbit (Z.land map (Z.lnot (Z.shiftl 1 id))) b =
  Z.testbit map b && negb (id =? b).
Proof.
  intros Hid.
  destruct (Z.le_gt_cases 0 b) as [Hb | Hb].
  - rewrite Z.land_spec, Z.lnot_spec, slot_bit by assumption. reflexivity.
  - rewrite !Z.testbit_neg_r by lia. reflexivity.
Qed.

Lemma set_slot_bit (map id b : Z) :
  0 <= id ->
  Z.testbit (Z.lor map (Z.shiftl 1 id)) b = Z.testbit map b || (id =? b).
Proof.
  intros Hid. rewrite Z.lor_spec, slot_bit by assumption. reflexivity.
Qed.

End Bitmask.

(** X8: [detach] on a bound handle clears the bit of its slot and no other
    bit of the active bitmask, resets the slot's pulse width to the neutral
    1500 and unbinds the handle, keeping its calibration.  It leaves the
    pin table, the Schedule, the cursor and the timer as they are: in
    particular it does not disarm the timer. *)
Theorem detach_effect (h : SoftwareServo) (g : Globals) :
  globals_ok g -> _attached h = true -> 0 <= _id h < MAX_SERVOS ->
  exists g',
    detach (mkEnv h g) =
      Ok (tt, mkEnv (mkServo (-1) false (_minUs h) (_maxUs h)) g') /\
    (forall b, Z.testbit (software_servo_map g') b =
               Z.testbit (software_servo_map g) b && negb (_id h =? b)) /\
    array_get (software_servo_pulse_lenght g') (_id h) =
      Ok DEFAULT_NEUTRAL_PULSE_WIDTH /\
    (forall j, 0 <= j -> j <> _id h ->
       array_get (software_servo_pulse_lenght g') j =
       array_get (software_servo_pulse_lenght g) j) /\
    software_servo_pins g' = software_servo_pins g /\
    software_servo_next_servo g' = software_servo_next_servo g /\
    software_servo_time_to_next_pulse g' = software_servo_time_to_next_pulse g /\
    software_servo_current_servo g' = software_servo_current_servo g /\
    software_servo_timer g' = software_servo_timer g /\
    hw_trace g' = hw_trace g.
Proof.
  intros Hg Hatt Hid.
  rewrite detach_attached by assumption.
  eexists. split; [reflexivity|].
  cbn [software_servo_map software_servo_pulse_lenght software_servo_pins
       software_servo_next_servo software_servo_time_to_next_pulse
       software_servo_current_servo software_servo_timer hw_trace
       set_pulse_lenght set_map].
  split; [intros b; apply clear_slot_bit; lia|].
  split; [apply array_get_set_same; apply sized_index; [apply Hg | exact Hid]|].
  split; [intros j Hj Hne; apply array_get_set_other; lia|].
  repeat split; reflexivity.
Qed.

Lemma detach_effect_witness :
  exists g',
    detach (mkEnv one_servo_handle one_servo_globals) =
      Ok (tt, mkEnv (mkServo (-1) false 1000 2000) g') /\
    (forall b, Z.testbit (software_servo_map g') b =
               Z.testbit (software_servo_map one_servo_globals) b
               && negb (0 =? b)) /\
    array_get (software_servo_pulse_lenght g') 0 =
      Ok DEFAULT_NEUTRAL_PULSE_WIDTH /\
    (forall j, 0 <= j -> j <> 0 ->
       array_get (software_servo_pulse_lenght g') j =
       array_get (software_servo_pulse_lenght one_servo_globals) j) /\
    software_servo_pins g' = software_servo_pins one_servo_globals /\
    software_servo_next_servo g' = software_servo_next_servo one_servo_globals /\
    software_servo_time_to_next_pulse g' =
      software_servo_time_to_next_pulse one_servo_globals /\
    software_servo_current_servo g' =
      software_servo_current_servo one_servo_globals /\
    software_servo_timer g' = software_servo_timer one_servo_globals /\
    hw_trace g' = hw_trace one_servo_globals.
Proof.
  apply (detach_effect one_servo_handle one_servo_globals).
  - exact one_servo_globals_ok.
  - reflexivity.
  - unfold MAX_SERVOS. cbn. lia.
Defined.

(* ------------------------------------------------------------------ *)
(** ** Writing and the timer *)

Section WriteArms.

(** [writeMicroseconds] on a bound handle, by what the builder finds. *)
Lemma writeMicroseconds_some_pin (h : SoftwareServo) (g : Globals) (v : Z) :
  globals_ok g -> _attached h = true -> 0 <= _id h < MAX_SERVOS ->
  (exists j, 0 <= j < MAX_SERVOS /\ assigned g j) ->
  exists g' t,
    writeMicroseconds v (mkEnv h g) = Ok (tt, mkEnv h g') /\
    software_servo_timer g' = Armed t true /\
    REFRESH_INTERVAL <= t <= MAX_SERVOS * REFRESH_INTERVAL /\
    array_get (software_servo_time_to_next_pulse g')
      (software_servo_current_servo g') = Ok t /\
    software_servo_map g' =
      Z.lor (software_servo_map g) (Z.shiftl 1 (_id h)) /\
    software_servo_current_servo g' = software_servo_current_servo g /\
    globals_ok g' /\
    software_servo_pins g' = software_servo_pins g /\
    (forall i, 0 <= i < MAX_SERVOS -> entry_built g g' i).
Proof.
  intros Hg Hatt Hid Hsome.
  unfold writeMicroseconds.
  cbn [bind field gets this globals]. rewrite Hatt.
  cbn [bind field gets this globals on_globals store lift modify].
  rewrite array_set_ok by (apply sized_index; [apply Hg | exact Hid]).
  set (w := constrain v (_minUs h) (_maxUs h)).
  set (g1 := set_pulse_lenght _ g).
  assert (Hg1 : globals_ok g1) by (apply globals_ok_set_pulse_lenght; exact Hg).
  assert (Hsome1 : exists j, 0 <= j < MAX_SERVOS /\ assigned g1 j) by exact Hsome.
  destruct (scan_servos_result g1 (Z.to_nat MAX_SERVOS) 0 0 g1 Hg1 eq_refl Hsome1
              ltac:(lia) ltac:(reflexivity))
    as (g2 & E & (S1 & S2 & S3 & S4 & S5 & S6) & Hg2 & Hall).
  { intros j Hj. lia. }
  fold find_times_between_pulses in E.
  cbn [globals this]. rewrite E.
  change (0 + Z.of_nat (Z.to_nat MAX_SERVOS) >? 0) with true.
  cbn [bind on_globals gets modify globals this os_timer_disarm
         os_timer_setfn ret load lift os_timer_arm].
  cbn [software_servo_current_servo software_servo_time_to_next_pulse
       set_timer set_map].
  assert (Hcur : 0 <= software_servo_current_servo g2 < MAX_SERVOS) by apply Hg2.
  destruct (Hall (software_servo_current_servo g2) Hcur)
    as (d & (Hd & _) & _ & Htm).
  rewrite Htm.
  eexists. exists (d * REFRESH_INTERVAL). split; [reflexivity|].
  cbn [software_servo_timer software_servo_map software_servo_current_servo
       software_servo_time_to_next_pulse set_timer set_map globals this].
  split; [reflexivity|].
  split; [unfold MAX_SERVOS, REFRESH_INTERVAL in *; lia|].
  split; [exact Htm|]. split; [rewrite S5; reflexivity|].
  split; [rewrite S4; reflexivity|].
  split; [exact Hg2|].
  split; [cbn [software_servo_pins set_timer set_map]; rewrite S2; reflexivity|].
  intros i Hi. exact (Hall i Hi).
Qed.

Lemma writeMicroseconds_no_pin (h : SoftwareServo) (g : Globals) (v : Z) :
  globals_ok g -> _attached h = true -> 0 <= _id h < MAX_SERVOS ->
  (forall j, 0 <= j < MAX_SERVOS -> unassigned g j) ->
  exists g',
    writeMicroseconds v (mkEnv h g) = Ok (tt, mkEnv h g') /\
    software_servo_timer g' = Disarmed /\
    software_servo_map g' =
      Z.land (software_servo_map g) (Z.lnot (Z.shiftl 1 (_id h))) /\
    globals_ok g' /\
    software_servo_pins g' = software_servo_pins g.
Proof.
  intros Hg Hatt Hid Hnone.
  unfold writeMicroseconds.
  cbn [bind field gets this globals]. rewrite Hatt.
  cbn [bind field gets this globals on_globals store lift modify].
  rewrite array_set_ok by (apply sized_index; [apply Hg | exact Hid]).
  set (g1 := set_pulse_lenght _ g).
  assert (Hg1 : globals_ok g1) by (apply globals_ok_set_pulse_lenght; exact Hg).
  assert (E : find_times_between_pulses g1 = Ok (0, g1)).
  { apply schedule_idle_aux; [exact Hg1 | exact Hnone]. }
  cbn [globals this]. rewrite E.
  change (0 >? 0) with false.
  cbn [bind on_globals gets modify globals this os_timer_disarm].
  eexists. split; [reflexivity|]. split; [reflexivity|].
  split; [reflexivity|]. split; [exact Hg1 | reflexivity].
Qed.

End WriteArms.

(** X9: [writeMicroseconds] on a bound handle, when any slot of the table
    has a pin, arms the timer with the delay the rebuilt Schedule gives the
    cursor's slot, which lies between one [REFRESH_INTERVAL] and a full
    cycle; it sets the bit of the handle's slot in the active bitmask and
    changes no other bit, and it does not move the cursor. *)
Theorem writeMicroseconds_arms_timer (h : SoftwareServo) (g : Globals) (v : Z) :
  globals_ok g -> _attached h = true -> 0 <= _id h < MAX_SERVOS ->
  (exists j, 0 <= j < MAX_SERVOS /\ assigned g j) ->
  exists g' t,
    writeMicroseconds v (mkEnv h g) = Ok (tt, mkEnv h g') /\
    software_servo_timer g' = Armed t true /\
    REFRESH_INTERVAL <= t <= MAX_SERVOS * REFRESH_INTERVAL /\
    array_get (software_servo_time_to_next_pulse g')
      (software_servo_current_servo g') = Ok t /\
    (forall b, Z.testbit (software_servo_map g') b =
               Z.testbit (software_servo_map g) b || (_id h =? b)) /\
    software_servo_current_servo g' = software_servo_current_servo g.
Proof.
  intros Hg Hatt Hid Hsome.
  destruct (writeMicroseconds_some_pin h g v Hg Hatt Hid Hsome)
    as (g' & t & E & Htimer & Ht & Hentry & Hmap & Hcur & _).
  exists g', t. split; [exact E|]. split; [exact Htimer|].
  split; [exact Ht|]. split; [exact Hentry|]. split; [|exact Hcur].
  intros b. rewrite Hmap. apply set_slot_bit. lia.
Qed.

Lemma writeMicroseconds_arms_timer_witness :
  exists g' t,
    writeMicroseconds 1700 (mkEnv one_servo_handle one_servo_globals) =
      Ok (tt, mkEnv one_servo_handle g') /\
    software_servo_timer g' = Armed t true /\
    REFRESH_INTERVAL <= t <= MAX_SERVOS * REFRESH_INTERVAL /\
    array_get (software_servo_time_to_next_pulse g')
      (software_servo_current_servo g') = Ok t /\
    (forall b, Z.testbit (software_servo_map g') b =
               Z.testbit (software_servo_map one_servo_globals) b
               || (_id one_servo_handle =? b)) /\
    software_servo_current_servo g' =
      software_servo_current_servo one_servo_globals.
Proof.
  apply (writeMicroseconds_arms_timer one_servo_handle one_servo_globals 1700).
  - exact one_servo_globals_ok.
  - reflexivity.
  - unfold MAX_SERVOS. cbn. lia.
  - exists 0. split; [unfold MAX_SERVOS; lia|].
    exists 5. split; [reflexivity | lia].
Defined.

(* ------------------------------------------------------------------ *)
(** ** One tick of the Pulse Emitter *)

Section Tick.

Lemma array_get_lookup (a : list Z) (i v : Z) :
  array_get a i = Ok v -> 0 <= i /\ a !! Z.to_nat i = Some v.
Proof.
  unfold array_get.
  destruct (Z.leb_spec 0 i) as [Hi | Hi]; [|discriminate].
  destruct (a !! Z.to_nat i) as [x|]; [|discriminate].
  intros [= ->]. split; [exact Hi | reflexivity].
Qed.

Lemma successor_in_range (g : Globals) (i n : Z) :
  globals_ok g ->
  array_get (software_servo_next_servo g) i = Ok n ->
  0 <= n < MAX_SERVOS.
Proof.
  intros (_ & _ & Hall) Hn.
  apply array_get_lookup in Hn as (_ & Hn).
  rewrite Forall_lookup in Hall. exact (Hall _ _ Hn).
Qed.

Lemma tick_active (g : Globals) (t pin w n : Z) :
  globals_ok g ->
  software_servo_map g <> 0 ->
  array_get (software_servo_time_to_next_pulse g)
    (software_servo_current_servo g) = Ok t ->
  0 <= t ->
  array_get (software_servo_pins g) (software_servo_current_servo g) = Ok pin ->
  array_get (software_servo_pulse_lenght g) (software_servo_current_servo g)
    = Ok w ->
  array_get (software_servo_next_servo g) (software_servo_current_servo g)
    = Ok n ->
  exists g',
    software_servo_timer_tick g = Ok (tt, g') /\
    software_servo_timer g' = Armed t true /\
    software_servo_current_servo g' = n /\
    hw_trace g' =
      hw_trace g ++
      (if 0 <=? pin
       then [DigitalWrite pin HIGH; DelayUs w; DigitalWrite pin LOW]
       else []) /\
    software_servo_pins g' = software_servo_pins g.
Proof.
  intros Hg Hmap Ht Htpos Hpin Hw Hn.
  pose proof (successor_in_range g _ n Hg Hn) as Hrange.
  clear Hg. destruct g as [tm pins pulse cur map nxt tim tr].
  cbn [software_servo_map software_servo_time_to_next_pulse
       software_servo_current_servo software_servo_pins
       software_servo_pulse_lenght software_servo_next_servo
       software_servo_timer hw_trace] in *.
  unfold software_servo_timer_tick.
  cbn -[array_get].
  destruct (Z.eqb_spec map 0) as [Hz | _]; [contradiction|].
  cbn -[array_get]. rewrite Ht. cbn -[array_get].
  destruct (Z.leb_spec 0 t) as [_ | Hneg]; [|lia].
  cbn -[array_get]. rewrite Ht. cbn -[array_get]. rewrite Hpin.
  destruct (0 <=? pin); cbn -[array_get].
  - rewrite Hw. cbn -[array_get]. rewrite Hn. cbn -[array_get].
    eexists. split; [reflexivity|].
    cbn. rewrite to_uint_small by (unfold MAX_SERVOS in *; lia).
    rewrite <- !app_assoc. repeat split; reflexivity.
  - rewrite Hn. cbn -[array_get].
    eexists. split; [reflexivity|].
    cbn. rewrite to_uint_small by (unfold MAX_SERVOS in *; lia).
    rewrite app_nil_r. repeat split; reflexivity.
Qed.

End Tick.

(** X10: when the active bitmask is not 0 and the delay of the cursor's
    slot is not negative, a tick of the Pulse Emitter re-arms the timer
    with that delay, moves the cursor to the slot's successor and, if the
    slot's pin is not negative, emits exactly one pulse on it: high, a busy
    wait of the slot's pulse width, low.  A slot with a negative pin is
    passed without a pulse. *)
Theorem tick_pulses_and_advances (g : Globals) (t pin w n : Z) :
  globals_ok g ->
  software_servo_map g <> 0 ->
  array_get (software_servo_time_to_next_pulse g)
    (software_servo_current_servo g) = Ok t ->
  0 <= t ->
  array_get (software_servo_pins g) (software_servo_current_servo g) = Ok pin ->
  array_get (software_servo_pulse_lenght g) (software_servo_current_servo g)
    = Ok w ->
  array_get (software_servo_next_servo g) (software_servo_current_servo g)
    = Ok n ->
  exists g',
    software_servo_timer_tick g = Ok (tt, g') /\
    software_servo_timer g' = Armed t true /\
    software_servo_current_servo g' = n /\
    hw_trace g' =
      hw_trace g ++
      (if 0 <=? pin
       then [DigitalWrite pin HIGH; DelayUs w; DigitalWrite pin LOW]
       else []).
Proof.
  intros Hg Hmap Ht Htpos Hpin Hw Hn.
  destruct (tick_active g t pin w n Hg Hmap Ht Htpos Hpin Hw Hn)
    as (g' & E & Htimer & Hcur & Htrace & _).
  exists g'. auto.
Qed.

Lemma tick_pulses_and_advances_witness :
  exists g',
    software_servo_timer_tick one_servo_globals = Ok (tt, g') /\
    software_servo_timer g' = Armed 20 true /\
    software_servo_current_servo g' = 0 /\
    hw_trace g' =
      hw_trace one_servo_globals ++
      (if 0 <=? 5
       then [DigitalWrite 5 HIGH; DelayUs 1500; DigitalWrite 5 LOW]
       else []).
Proof.
  apply (tick_pulses_and_advances one_servo_globals 20 5 1500 0).
  - exact one_servo_globals_ok.
  - cbn. lia.
  - reflexivity.
  - lia.
  - reflexivity.
  - reflexivity.
  - reflexivity.
Defined.

(** X11: when the active bitmask is 0, or the delay of the cursor's slot is
    negative, a tick only disarms the timer: no pin is touched and the
    cursor stays. *)
Theorem tick_idle_disarms (g : Globals) (t : Z) :
  array_get (software_servo_time_to_next_pulse g)
    (software_servo_current_servo g) = Ok t ->
  software_servo_map g = 0 \/ t < 0 ->
  software_servo_timer_tick g = Ok (tt, set_timer Disarmed g).
Proof.
  intros Ht Hidle.
  unfold software_servo_timer_tick. cbn [bind gets].
  destruct (Z.eqb_spec (software_servo_map g) 0) as [Hz | Hnz].
  - reflexivity.
  - destruct Hidle as [Hz | Hneg]; [contradiction|].
    cbn [bind load gets lift ret]. rewrite Ht.
    destruct (Z.leb_spec 0 t) as [Hpos | _]; [lia|].
    reflexivity.
Qed.

Lemma tick_idle_disarms_witness :
  software_servo_timer_tick initial_globals =
  Ok (tt, set_timer Disarmed initial_globals).
Proof.
  apply (tick_idle_disarms initial_globals 5).
  - reflexivity.
  - left. reflexivity.
Defined.

(* ------------------------------------------------------------------ *)
(** ** One round of the Pulse Emitter *)

Section Round.

(** A tick on an active slot changes the timer, the cursor and the trace
    only. *)
Lemma tick_frame (g : Globals) (t nx : Z) :
  arrays_sized g ->
  0 <= software_servo_current_servo g < MAX_SERVOS ->
  software_servo_map g <> 0 ->
  array_get (software_servo_time_to_next_pulse g)
    (software_servo_current_servo g) = Ok t ->
  0 <= t ->
  array_get (software_servo_next_servo g) (software_servo_current_servo g)
    = Ok nx ->
  0 <= nx < MAX_SERVOS ->
  exists g',
    software_servo_timer_tick g = Ok (tt, g') /\
    software_servo_timer g' = Armed t true /\
    software_servo_current_servo g' = nx /\
    software_servo_map g' = software_servo_map g /\
    software_servo_pins g' = software_servo_pins g /\
    software_servo_pulse_lenght g' = software_servo_pulse_lenght g /\
    software_servo_next_servo g' = software_servo_next_servo g /\
    software_servo_time_to_next_pulse g' = software_servo_time_to_next_pulse g.
Proof.
  intros Hs Hcur Hmap Ht Htpos Hn Hrange.
  destruct (array_get_ok (software_servo_pins g)
              (software_servo_current_servo g)) as (pin & Hpin & _).
  { apply sized_index; [apply Hs | exact Hcur]. }
  destruct (array_get_ok (software_servo_pulse_lenght g)
              (software_servo_current_servo g)) as (w & Hw & _).
  { apply sized_index; [apply Hs | exact Hcur]. }
  clear Hs Hcur. destruct g as [tm pins pulse cur map nxt tim tr].
  cbn [software_servo_map software_servo_time_to_next_pulse
       software_servo_current_servo software_servo_pins
       software_servo_pulse_lenght software_servo_next_servo
       software_servo_timer hw_trace] in *.
  unfold software_servo_timer_tick.
  cbn -[array_get].
  destruct (Z.eqb_spec map 0) as [Hz | _]; [contradiction|].
  cbn -[array_get]. rewrite Ht. cbn -[array_get].
  destruct (Z.leb_spec 0 t) as [_ | Hneg]; [|lia].
  cbn -[array_get]. rewrite Ht. cbn -[array_get]. rewrite Hpin.
  destruct (0 <=? pin); cbn -[array_get].
  - rewrite Hw. cbn -[array_get]. rewrite Hn. cbn -[array_get].
    eexists. split; [reflexivity|].
    cbn. rewrite to_uint_small by (unfold MAX_SERVOS in *; lia).
    repeat split; reflexivity.
  - rewrite Hn. cbn -[array_get].
    eexists. split; [reflexivity|].
    cbn. rewrite to_uint_small by (unfold MAX_SERVOS in *; lia).
    repeat split; reflexivity.
Qed.

(** With a non-zero bitmask and no negative delay, consecutive ticks move
    the cursor along the walk through the Schedule. *)
Lemma ticks_walk (n : nat) :
  forall (g : Globals) (vis : list Z) (el last : Z),
    arrays_sized g ->
    software_servo_map g <> 0 ->
    Forall (fun t => 0 <= t) (software_servo_time_to_next_pulse g) ->
    Forall (fun x => 0 <= x < MAX_SERVOS) (software_servo_next_servo g) ->
    0 <= software_servo_current_servo g < MAX_SERVOS ->
    walk (software_servo_next_servo g) (software_servo_time_to_next_pulse g)
      n (software_servo_current_servo g) = Ok (vis, el, last) ->
    exists g',
      ticks n g = Ok ((vis, el), g') /\
      software_servo_current_servo g' = last.
Proof.
  induction n as [|n IH]; intros g vis el last Hs Hmap Htim Hnxt Hcur Hw.
  - cbn in Hw. injection Hw as <- <- <-. exists g. split; reflexivity.
  - cbn [walk] in Hw.
    destruct (array_get_ok (software_servo_time_to_next_pulse g)
                (software_servo_current_servo g)) as (t & Ht & Ht').
    { apply sized_index; [apply Hs | exact Hcur]. }
    destruct (array_get_ok (software_servo_next_servo g)
                (software_servo_current_servo g)) as (nx & Hn & Hn').
    { apply sized_index; [apply Hs | exact Hcur]. }
    rewrite Ht, Hn in Hw. cbn [result_bind] in Hw.
    assert (Htpos : 0 <= t).
    { rewrite Forall_lookup in Htim. exact (Htim _ _ Ht'). }
    assert (Hrange : 0 <= nx < MAX_SERVOS).
    { rewrite Forall_lookup in Hnxt. exact (Hnxt _ _ Hn'). }
    destruct (tick_frame g t nx Hs Hcur Hmap Ht Htpos Hn Hrange)
      as (g1 & Etick & Htm & Hc1 & Hm1 & Hp1 & Hw1 & Hn1 & Ht1).
    destruct (walk _ _ n nx) as [[[vis' el'] last']|f] eqn:Ewalk;
      [|discriminate Hw].
    cbn [result_bind fst snd] in Hw. injection Hw as <- <- <-.
    destruct (IH g1 vis' el' last') as (g2 & Eticks & Hc2).
    + destruct Hs as (H1 & H2 & H3 & H4).
      repeat split; congruence.
    + congruence.
    + rewrite Ht1. exact Htim.
    + rewrite Hn1. exact Hnxt.
    + rewrite Hc1. exact Hrange.
    + rewrite Hn1, Ht1, Hc1. exact Ewalk.
    + exists g2. split; [|exact Hc2].
      cbn [ticks bind gets]. rewrite Etick.
      cbn [bind gets]. rewrite Htm, Eticks.
      cbn [bind ret timer_period fst snd]. reflexivity.
Qed.

End Round.

Lemma has_pin_range (g : Globals) (i : Z) :
  arrays_sized g -> has_pin g i = true -> 0 <= i < MAX_SERVOS.
Proof.
  intros (Hlen & _). unfold has_pin, array_get.
  destruct (Z.leb_spec 0 i) as [Hi | _]; [|discriminate].
  destruct (software_servo_pins g !! Z.to_nat i) as [v|] eqn:E; [|discriminate].
  intros _. apply lookup_lt_Some in E. unfold MAX_SERVOS in *. lia.
Qed.

(** X4: when at least one slot has a pin, the rebuilt Schedule makes the
    Pulse Emitter go round the slots that have a pin in one full cycle.
    The delays of those slots add up to [MAX_SERVOS * REFRESH_INTERVAL],
    however many there are.  And with the cursor on any slot [i] that has
    a pin and a non-zero bitmask, as many calls of
    [software_servo_timer_tick] as there are slots with a pin follow
    [next] through each of them once, in cyclic order from [i]; the
    periods they arm the timer with add up to
    [MAX_SERVOS * REFRESH_INTERVAL]; and the cursor is back on [i]. *)
Theorem schedule_cycle_time (g : Globals) :
  arrays_sized g ->
  (exists j, 0 <= j < MAX_SERVOS /\ assigned g j) ->
  exists g',
    find_times_between_pulses g = Ok (MAX_SERVOS, g') /\
    cycle_time g' = MAX_SERVOS * REFRESH_INTERVAL /\
    forall i m, has_pin g i = true -> m <> 0 ->
      exists g'',
        ticks (length (active_slots g))
          (set_map m (set_current_servo i g')) =
          Ok ((round_from i (active_slots g), MAX_SERVOS * REFRESH_INTERVAL),
              g'') /\
        software_servo_current_servo g'' = i.
Proof.
  intros Hs (j & Hj & (p & Hp & Hne)).
  assert (Hrange : forall i, has_pin g i = true -> 0 <= i < MAX_SERVOS).
  { intros i. apply has_pin_range. exact Hs. }
  apply slot_cases in Hj. apply Z.eqb_neq in Hne.
  sized g Hs.
  unfold find_times_between_pulses.
  run_pins.
  (* no slot has a pin: excluded *)
  all: try (exfalso;
            destruct Hj as [-> | [-> | [-> | ->]]];
            vm_compute in Hp; injection Hp as ->; congruence).
  all: eexists; (split; [reflexivity|]).
  all: split; [unfold cycle_time; run_pins; reflexivity|].
  all: intros i m Hi Hm.
  all: pose proof (Hrange i Hi) as Hc.
  all: clear Hrange Hj Hp.
  all: apply ticks_walk;
    [ repeat split; reflexivity
    | exact Hm
    | cbn; unfold REFRESH_INTERVAL; repeat (constructor; [lia|]); constructor
    | cbn; unfold MAX_SERVOS; repeat (constructor; [lia|]); constructor
    | exact Hc
    | ].
  all: cbn [software_servo_next_servo software_servo_time_to_next_pulse
            software_servo_current_servo set_map set_current_servo
            set_time_to_next_pulse set_next_servo].
  all: apply slot_cases in Hc; destruct Hc as [-> | [-> | [-> | ->]]].
  all: revert Hi; unfold active_slots, has_pin; run_pins.
  (* the cursor is on a slot without a pin: excluded *)
  all: intros Hi; try discriminate Hi; clear Hi.
  all: vm_compute; reflexivity.
Qed.

Lemma schedule_cycle_time_witness :
  exists g' g'',
    find_times_between_pulses (set_pins [-1; 7; -1; 9] initial_globals) =
      Ok (MAX_SERVOS, g') /\
    cycle_time g' = MAX_SERVOS * REFRESH_INTERVAL /\
    ticks 2 (set_map 8 (set_current_servo 3 g')) =
      Ok (([3; 1], MAX_SERVOS * REFRESH_INTERVAL), g'') /\
    software_servo_current_servo g'' = 3.
Proof.
  destruct (schedule_cycle_time (set_pins [-1; 7; -1; 9] initial_globals))
    as (g' & Hbuilt & Hsum & Hround).
  - repeat split; reflexivity.
  - exists 1. split; [unfold MAX_SERVOS; lia|].
    exists 7. split; [reflexivity | lia].
  - destruct (Hround 3 8 eq_refl ltac:(lia)) as (g'' & Hticks & Hcur).
    exists g', g''.
    split; [exact Hbuilt|]. split; [exact Hsum|].
    split; [exact Hticks | exact Hcur].
Defined.

(* ------------------------------------------------------------------ *)
(** ** More on [attach] *)

Section AttachMore.

Variables (pin minUs maxUs value : Z).

(** [attach] on an unbound handle with a slot free, with the pin setup. *)
Lemma attach_fresh (h : SoftwareServo) (g : Globals) (k : Z) :
  globals_ok g -> _attached h = false -> first_free g k ->
  exists h' g',
    attach pin minUs maxUs value (mkEnv h g) = Ok (to_uint8 pin, mkEnv h' g') /\
    _id h' = k /\ _attached h' = true /\
    software_servo_pins g' = <[Z.to_nat k := pin]> (software_servo_pins g) /\
    hw_trace g' = hw_trace g ++ [DigitalWrite pin LOW; PinModeOutput pin] /\
    globals_ok g'.
Proof.
  intros Hg Hatt Hk.
  unfold attach. cbn [bind field gets this]. rewrite Hatt.
  cbn [negb bind on_globals digitalWrite pinMode_OUTPUT modify globals this].
  rewrite (claim_slot_first_free pin value k);
    [| exact Hg | exact Hk | destruct Hk as (Hk & _); lia
     | destruct Hk as ((_ & Hk) & _); unfold MAX_SERVOS in *; cbn; lia ].
  cbn [bind field gets this set_id _id].
  destruct Hk as (Hk & _).
  destruct (Z.eqb_spec k (-1)) as [Hneg | _]; [lia|].
  cbn [bind modify ret set_attached set_maxUs set_minUs field gets this globals
         _id _attached _minUs _maxUs].
  unfold set_minUs, set_maxUs, set_attached, set_id.
  cbn [this globals _id _attached _minUs _maxUs].
  match goal with
  | |- context [write value (mkEnv ?hh ?gg)] => set (h' := hh); set (g' := gg)
  end.
  destruct (write_attached h' g' value) as (g2 & -> & Hp & Ht & Hg2).
  - subst g'. set (g0 := emit _ (emit _ g)).
    apply (globals_ok_set_pulse_lenght
             (set_pins (<[Z.to_nat k := pin]> (software_servo_pins g0)) g0)
             k value).
    apply globals_ok_set_pins. exact Hg.
  - reflexivity.
  - exact Hk.
  - exists h', g2. split; [reflexivity|].
    rewrite Hp, Ht. subst h' g'. cbn. rewrite <- app_assoc.
    repeat split; try reflexivity; apply Hg2.
Qed.

End AttachMore.

(** X12: [attach] called through an unbound handle while a slot is free
    drives the pin low and then makes it an output, binds the handle to the
    lowest-indexed free slot [k], stores the pin there and leaves every
    other slot's pin and every other servo object as they were; it returns
    the pin converted to [uint8_t]. *)
Theorem attach_lowest_free_slot
    (p : Program) (o : nat) (h : SoftwareServo) (k pin minUs maxUs value : Z) :
  objects p !! o = Some h ->
  globals_ok (statics p) -> _attached h = false -> first_free (statics p) k ->
  exists p' h',
    call o (attach pin minUs maxUs value) p = Ok (to_uint8 pin, p') /\
    objects p' = <[o := h']> (objects p) /\
    _id h' = k /\ _attached h' = true /\
    array_get (software_servo_pins (statics p')) k = Ok pin /\
    (forall j, 0 <= j -> j <> k ->
       array_get (software_servo_pins (statics p')) j =
       array_get (software_servo_pins (statics p)) j) /\
    hw_trace (statics p') =
      hw_trace (statics p) ++ [DigitalWrite pin LOW; PinModeOutput pin].
Proof.
  intros Hobj Hg Hatt Hk.
  destruct (attach_fresh pin minUs maxUs value h (statics p) k Hg Hatt Hk)
    as (h' & g' & E & Hid & Hatt' & Hpins & Htrace & _).
  unfold call. rewrite Hobj, E.
  eexists. exists h'. split; [reflexivity|].
  cbn [objects statics this globals].
  split; [reflexivity|]. split; [exact Hid|]. split; [exact Hatt'|].
  rewrite Hpins. destruct Hk as (Hk & _).
  split; [apply array_get_set_same; apply sized_index; [apply Hg | exact Hk]|].
  split; [|exact Htrace].
  intros j Hj Hne. apply array_get_set_other; lia.
Qed.

Lemma attach_lowest_free_slot_witness :
  exists p' h',
    call 1%nat (attach 6 1000 2000 1500)
      (mkProgram [one_servo_handle; new_SoftwareServo] one_servo_globals) =
      Ok (to_uint8 6, p') /\
    objects p' = <[1%nat := h']> [one_servo_handle; new_SoftwareServo] /\
    _id h' = 1 /\ _attached h' = true /\
    array_get (software_servo_pins (statics p')) 1 = Ok 6 /\
    (forall j, 0 <= j -> j <> 1 ->
       array_get (software_servo_pins (statics p')) j =
       array_get (software_servo_pins one_servo_globals) j) /\
    hw_trace (statics p') =
      hw_trace one_servo_globals ++ [DigitalWrite 6 LOW; PinModeOutput 6].
Proof.
  apply (attach_lowest_free_slot
           (mkProgram [one_servo_handle; new_SoftwareServo] one_servo_globals)
           1%nat new_SoftwareServo 1 6 1000 2000 1500).
  - reflexivity.
  - exact one_servo_globals_ok.
  - reflexivity.
  - split; [unfold MAX_SERVOS; lia|]. split; [reflexivity|].
    intros j Hj. assert (j = 0) as -> by lia.
    exists 5. split; [reflexivity | lia].
Defined.

(** X13: [attach] called through a handle that is already bound does not
    look for a slot and touches neither the pin table nor any pin: the
    handle keeps its slot, only its calibration is replaced by the clamped
    new bounds and the value is written.  The pin passed in is ignored, yet
    it is what the call returns. *)
Theorem reattach_keeps_binding
    (h : SoftwareServo) (g : Globals) (pin minUs maxUs value : Z) :
  globals_ok g -> _attached h = true -> 0 <= _id h < MAX_SERVOS ->
  exists h' g',
    attach pin minUs maxUs value (mkEnv h g) = Ok (to_uint8 pin, mkEnv h' g') /\
    _id h' = _id h /\ _attached h' = true /\
    _maxUs h' = Z.max 250 (Z.min 3000 (to_uint16 maxUs)) /\
    _minUs h' = Z.max 200 (Z.min (_maxUs h') (to_uint16 minUs)) /\
    software_servo_pins g' = software_servo_pins g /\
    hw_trace g' = hw_trace g.
Proof.
  intros Hg Hatt Hid.
  unfold attach. cbn [bind field gets this]. rewrite Hatt.
  cbn [negb bind ret modify field gets this].
  unfold set_minUs, set_maxUs.
  cbn [this globals _id _attached _minUs _maxUs].
  match goal with
  | |- context [write value (mkEnv ?hh ?gg)] => set (h' := hh)
  end.
  destruct (write_attached h' g value Hg Hatt Hid) as (g2 & -> & Hp & Ht & _).
  exists h', g2. repeat split; try reflexivity; assumption.
Qed.

Lemma reattach_keeps_binding_witness :
  exists h' g',
    attach 9 500 2500 1500 (mkEnv one_servo_handle one_servo_globals) =
      Ok (to_uint8 9, mkEnv h' g') /\
    _id h' = _id one_servo_handle /\ _attached h' = true /\
    _maxUs h' = Z.max 250 (Z.min 3000 (to_uint16 2500)) /\
    _minUs h' = Z.max 200 (Z.min (_maxUs h') (to_uint16 500)) /\
    software_servo_pins g' = software_servo_pins one_servo_globals /\
    hw_trace g' = hw_trace one_servo_globals.
Proof.
  apply (reattach_keeps_binding one_servo_handle one_servo_globals 9 500 2500 1500).
  - exact one_servo_globals_ok.
  - reflexivity.
  - unfold MAX_SERVOS. cbn. lia.
Defined.

(** X14: for a pin between 1 and 255, the result of [attach] called
    through an unbound handle tells success from failure: it is 0 exactly
    when the handle is still unattached afterwards, and it is the pin when
    the handle is attached. *)
Theorem attach_result_tells_success
    (h : SoftwareServo) (g : Globals) (pin minUs maxUs value : Z) :
  globals_ok g -> _attached h = false -> _id h = -1 ->
  1 <= pin < 256 ->
  exists r e,
    attach pin minUs maxUs value (mkEnv h g) = Ok (r, e) /\
    (r = 0 <-> _attached (this e) = false) /\
    (_attached (this e) = true -> r = pin).
Proof.
  intros Hg Hatt Hid Hpin.
  destruct (first_free_or_full g (proj1 Hg)) as [Hfull | (k & Hk)].
  - rewrite attach_full by assumption.
    do 2 eexists. split; [reflexivity|]. cbn [this].
    split; [split; [intros _; exact Hatt | reflexivity]|].
    rewrite Hatt. discriminate.
  - destruct (attach_fresh pin minUs maxUs value h g k Hg Hatt Hk)
      as (h' & g' & E & _ & Hatt' & _).
    rewrite E. do 2 eexists. split; [reflexivity|]. cbn [this].
    assert (Hr : to_uint8 pin = pin).
    { unfold to_uint8. apply Z.mod_small. lia. }
    rewrite Hr, Hatt'. split; [split; [lia | discriminate]|].
    reflexivity.
Qed.

Lemma attach_result_tells_success_witness :
  exists r e,
    attach 14 1000 2000 1500 (mkEnv new_SoftwareServo (statics four_servos)) =
      Ok (r, e) /\
    (r = 0 <-> _attached (this e) = false) /\
    (_attached (this e) = true -> r = 14).
Proof.
  apply (attach_result_tells_success
           new_SoftwareServo (statics four_servos) 14 1000 2000 1500).
  - split; [repeat split; reflexivity|].
    split; [unfold MAX_SERVOS; cbn; lia|].
    cbn. unfold MAX_SERVOS. repeat constructor; lia.
  - reflexivity.
  - reflexivity.
  - lia.
Defined.

(** X15: the pin -1 is the mark of a free slot, and [attach] does not
    refuse it: called with pin -1 through an unbound handle it binds the
    handle to the lowest free slot [k] and returns 255, but the slot still
    reads as free, so it is still the lowest free slot and the next
    [attach] will bind a second handle to it. *)
Theorem attach_pin_minus_one_leaves_slot_free
    (h : SoftwareServo) (g : Globals) (k minUs maxUs value : Z) :
  globals_ok g -> _attached h = false -> first_free g k ->
  exists h' g',
    attach (-1) minUs maxUs value (mkEnv h g) = Ok (255, mkEnv h' g') /\
    _attached h' = true /\ _id h' = k /\
    software_servo_pins g' = software_servo_pins g /\
    first_free g' k.
Proof.
  intros Hg Hatt Hk.
  destruct (attach_fresh (-1) minUs maxUs value h g k Hg Hatt Hk)
    as (h' & g' & E & Hid & Hatt' & Hpins & _).
  assert (Hsame : software_servo_pins g' = software_servo_pins g).
  { rewrite Hpins. apply list_insert_id.
    destruct Hk as (_ & Hfree & _).
    apply array_get_lookup in Hfree as (_ & Hfree). exact Hfree. }
  exists h', g'. split; [exact E|]. split; [exact Hatt'|].
  split; [exact Hid|]. split; [exact Hsame|].
  destruct Hk as (Hk & Hfree & Hbelow).
  split; [exact Hk|]. split.
  - apply (unassigned_same_pins g g' k Hsame). exact Hfree.
  - intros j Hj. apply (assigned_same_pins g g' j Hsame). apply Hbelow. exact Hj.
Qed.

Lemma attach_pin_minus_one_leaves_slot_free_witness :
  exists h' g',
    attach (-1) 1000 2000 1500 (mkEnv new_SoftwareServo initial_globals) =
      Ok (255, mkEnv h' g') /\
    _attached h' = true /\ _id h' = 0 /\
    software_servo_pins g' = software_servo_pins initial_globals /\
    first_free g' 0.
Proof.
  apply (attach_pin_minus_one_leaves_slot_free
           new_SoftwareServo initial_globals 0 1000 2000 1500).
  - exact initial_globals_ok.
  - reflexivity.
  - exact initial_first_free.
Defined.

(* ------------------------------------------------------------------ *)
(** ** Writing and reading back *)

Section WriteRead.

Lemma calibrated_uint16 (h : SoftwareServo) :
  calibrated h -> is_uint16 (_minUs h) /\ is_uint16 (_maxUs h).
Proof. unfold calibrated, is_uint16. lia. Qed.

Lemma constrain_inside (v lo hi : Z) : lo <= v <= hi -> constrain v lo hi = v.
Proof.
  intros Hv. unfold constrain.
  destruct (Z.ltb_spec v lo); [lia|].
  destruct (Z.gtb_spec v hi); [lia | reflexivity].
Qed.

(** The width that [write v] commands under the calibration of [h]. *)
Lemma write_attached_width (h : SoftwareServo) (g : Globals) (v : Z) :
  globals_ok g -> _attached h = true -> 0 <= _id h < MAX_SERVOS ->
  calibrated h ->
  exists g',
    write v (mkEnv h g) = Ok (tt, mkEnv h g') /\
    globals_ok g' /\
    software_servo_pulse_lenght g' =
      <[Z.to_nat (_id h) :=
          if v <? 200
          then scale (constrain v 0 180) 180 (_maxUs h - _minUs h) + _minUs h
          else constrain v (_minUs h) (_maxUs h)]>
        (software_servo_pulse_lenght g).
Proof.
  intros Hg Hatt Hid Hcal.
  destruct (calibrated_uint16 h Hcal) as (Hmn & Hmx).
  destruct Hcal as (H200 & Hle & H250 & H3000).
  unfold write. cbn [bind].
  destruct (v <? 200).
  - cbn [bind field gets this lift].
    pose proof (constrain_bounds v 0 180 ltac:(lia)) as Ha.
    change (improved_map (constrain v 0 180) 0 180 (_minUs h) (_maxUs h))
      with (angle_to_us (_minUs h) (_maxUs h) (constrain v 0 180)).
    rewrite angle_to_us_scale by assumption.
    set (us := scale (constrain v 0 180) 180 (_maxUs h - _minUs h) + _minUs h).
    assert (Hus : _minUs h <= us <= _maxUs h).
    { subst us.
      pose proof (scale_nonneg (constrain v 0 180) 180 (_maxUs h - _minUs h)
                    ltac:(lia) ltac:(lia) ltac:(lia)).
      pose proof (scale_le (constrain v 0 180) 180 (_maxUs h - _minUs h)
                    ltac:(lia) ltac:(lia) ltac:(lia)).
      lia. }
    destruct (writeMicroseconds_attached h g us Hg Hatt Hid)
      as (g' & E & Hw & _ & _ & Hg').
    exists g'. split; [exact E|]. split; [exact Hg'|].
    rewrite Hw, constrain_inside by exact Hus. reflexivity.
  - cbn [ret].
    destruct (writeMicroseconds_attached h g v Hg Hatt Hid)
      as (g' & E & Hw & _ & _ & Hg').
    exists g'. auto.
Qed.

End WriteRead.

(** X16: on an attached handle, [write v] followed by [readMicroseconds]
    returns, for [v < 200], the lower bound plus the angle (clamped to
    [0,180]) scaled to the calibrated range and rounded half up, and for
    [v >= 200] the value [v] clamped to the calibrated range. *)
Theorem write_then_readMicroseconds (h : SoftwareServo) (g : Globals) (v : Z) :
  globals_ok g -> _attached h = true -> 0 <= _id h < MAX_SERVOS ->
  calibrated h ->
  exists e,
    (write v ;; readMicroseconds) (mkEnv h g) =
      Ok (if v <? 200
          then scale (constrain v 0 180) 180 (_maxUs h - _minUs h) + _minUs h
          else constrain v (_minUs h) (_maxUs h), e).
Proof.
  intros Hg Hatt Hid Hcal.
  destruct (write_attached_width h g v Hg Hatt Hid Hcal) as (g' & E & _ & Hw).
  cbn [bind]. rewrite E.
  erewrite readMicroseconds_attached; [eexists; reflexivity | exact Hatt |].
  rewrite Hw. apply array_get_set_same.
  apply sized_index; [apply Hg | exact Hid].
Qed.

Lemma write_then_readMicroseconds_witness :
  exists e,
    (write 90 ;; readMicroseconds) (mkEnv one_servo_handle one_servo_globals) =
      Ok (if 90 <? 200
          then scale (constrain 90 0 180) 180
                 (_maxUs one_servo_handle - _minUs one_servo_handle)
               + _minUs one_servo_handle
          else constrain 90 (_minUs one_servo_handle) (_maxUs one_servo_handle),
          e).
Proof.
  apply (write_then_readMicroseconds one_servo_handle one_servo_globals 90).
  - exact one_servo_globals_ok.
  - reflexivity.
  - unfold MAX_SERVOS. cbn. lia.
  - unfold calibrated. cbn. lia.
Defined.

(** X17: on an attached handle, the angles at and beyond the ends of the
    scale saturate: [write v] with [v <= 0] commands the lower calibration
    bound, and with [180 <= v < 200] the upper one. *)
Theorem write_saturates (h : SoftwareServo) (g : Globals) (v : Z) :
  globals_ok g -> _attached h = true -> 0 <= _id h < MAX_SERVOS ->
  calibrated h ->
  v <= 0 \/ 180 <= v < 200 ->
  exists e,
    (write v ;; readMicroseconds) (mkEnv h g) =
      Ok (if v <=? 0 then _minUs h else _maxUs h, e).
Proof.
  intros Hg Hatt Hid Hcal Hv.
  destruct (write_attached_width h g v Hg Hatt Hid Hcal) as (g' & E & _ & Hw).
  cbn [bind]. rewrite E.
  erewrite readMicroseconds_attached; [eexists; reflexivity | exact Hatt |].
  rewrite Hw.
  destruct (Z.ltb_spec v 200) as [_ | Hge]; [|lia].
  replace (scale (constrain v 0 180) 180 (_maxUs h - _minUs h) + _minUs h)
    with (if v <=? 0 then _minUs h else _maxUs h).
  { apply array_get_set_same. apply sized_index; [apply Hg | exact Hid]. }
  unfold constrain.
  destruct (Z.leb_spec v 0) as [Hle | Hgt].
  - destruct (Z.ltb_spec v 0).
    + rewrite scale_zero by lia. lia.
    + assert (v = 0) as -> by lia. cbn. rewrite scale_zero by lia. lia.
  - destruct (Z.ltb_spec v 0); [lia|].
    destruct (Z.gtb_spec v 180).
    + rewrite scale_whole by lia. lia.
    + assert (v = 180) as -> by lia. rewrite scale_whole by lia. lia.
Qed.

Lemma write_saturates_witness :
  exists e,
    (write 199 ;; readMicroseconds) (mkEnv one_servo_handle one_servo_globals) =
      Ok (if 199 <=? 0 then _minUs one_servo_handle
          else _maxUs one_servo_handle, e).
Proof.
  apply (write_saturates one_servo_handle one_servo_globals 199).
  - exact one_servo_globals_ok.
  - reflexivity.
  - unfold MAX_SERVOS. cbn. lia.
  - unfold calibrated. cbn. lia.
  - right. lia.
Defined.

(** X18: on an attached handle whose calibrated range is at least 180
    microseconds wide, [write a] followed by [read] returns the angle [a]
    itself, for every [a] of [0,180]. *)
Theorem write_then_read_angle (h : SoftwareServo) (g : Globals) (a : Z) :
  globals_ok g -> _attached h = true -> 0 <= _id h < MAX_SERVOS ->
  calibrated h -> _minUs h + 180 <= _maxUs h ->
  0 <= a <= 180 ->
  exists e, (write a ;; read) (mkEnv h g) = Ok (a, e).
Proof.
  intros Hg Hatt Hid Hcal Hwide Ha.
  destruct (calibrated_uint16 h Hcal) as (Hmn & Hmx).
  destruct (write_attached_width h g a Hg Hatt Hid Hcal) as (g' & E & Hg' & Hw).
  cbn [bind]. rewrite E. unfold read. cbn [bind].
  erewrite readMicroseconds_attached; [| exact Hatt |].
  2:{ rewrite Hw. apply array_get_set_same.
      apply sized_index; [apply Hg | exact Hid]. }
  cbn [bind field gets this lift].
  destruct (Z.ltb_spec a 200) as [_ | Hge]; [|lia].
  rewrite constrain_inside by exact Ha.
  set (r := _maxUs h - _minUs h).
  pose proof (scale_nonneg a 180 r ltac:(lia) ltac:(lia) ltac:(subst r; lia)) as H0.
  pose proof (scale_le a 180 r ltac:(lia) ltac:(subst r; lia) ltac:(lia)) as H1.
  change (improved_map (scale a 180 r + _minUs h) (_minUs h) (_maxUs h) 0 180)
    with (us_to_angle (_minUs h) (_maxUs h) (scale a 180 r + _minUs h)).
  rewrite us_to_angle_scale by (try assumption; subst r; lia).
  fold r. replace (scale a 180 r + _minUs h - _minUs h) with (scale a 180 r) by lia.
  rewrite scale_back by (subst r; lia).
  eexists. reflexivity.
Qed.

Lemma write_then_read_angle_witness :
  exists e, (write 37 ;; read) (mkEnv one_servo_handle one_servo_globals) = Ok (37, e).
Proof.
  apply (write_then_read_angle one_servo_handle one_servo_globals 37).
  - exact one_servo_globals_ok.
  - reflexivity.
  - unfold MAX_SERVOS. cbn. lia.
  - unfold calibrated. cbn. lia.
  - cbn. lia.
  - lia.
Defined.

(** X19: on an attached handle with distinct calibration bounds, [read]
    after any [writeMicroseconds] returns an angle of [0,180]. *)
Theorem read_after_write_is_angle (h : SoftwareServo) (g : Globals) (v : Z) :
  globals_ok g -> _attached h = true -> 0 <= _id h < MAX_SERVOS ->
  calibrated h -> _minUs h < _maxUs h ->
  exists a e,
    (writeMicroseconds v ;; read) (mkEnv h g) = Ok (a, e) /\ 0 <= a <= 180.
Proof.
  intros Hg Hatt Hid Hcal Hlt.
  destruct (calibrated_uint16 h Hcal) as (Hmn & Hmx).
  destruct (writeMicroseconds_attached h g v Hg Hatt Hid)
    as (g' & E & Hw & _ & _ & Hg').
  cbn [bind]. rewrite E. unfold read. cbn [bind].
  erewrite readMicroseconds_attached; [| exact Hatt |].
  2:{ rewrite Hw. apply array_get_set_same.
      apply sized_index; [apply Hg | exact Hid]. }
  cbn [bind field gets this lift].
  set (us := constrain v (_minUs h) (_maxUs h)).
  pose proof (constrain_bounds v (_minUs h) (_maxUs h) ltac:(lia)) as Hus.
  fold us in Hus.
  change (improved_map us (_minUs h) (_maxUs h) 0 180)
    with (us_to_angle (_minUs h) (_maxUs h) us).
  rewrite us_to_angle_scale by assumption.
  do 2 eexists. split; [reflexivity|].
  split.
  - apply scale_nonneg; lia.
  - apply scale_le; lia.
Qed.

Lemma read_after_write_is_angle_witness :
  exists a e,
    (writeMicroseconds 2500 ;; read) (mkEnv one_servo_handle one_servo_globals) =
      Ok (a, e) /\ 0 <= a <= 180.
Proof.
  apply (read_after_write_is_angle one_servo_handle one_servo_globals 2500).
  - exact one_servo_globals_ok.
  - reflexivity.
  - unfold MAX_SERVOS. cbn. lia.
  - unfold calibrated. cbn. lia.
  - cbn. lia.
Defined.

(* ------------------------------------------------------------------ *)
(** ** Handles that are not attached *)

(** X20: through a handle that is not attached, [write],
    [writeMicroseconds] and [detach] return without changing anything (no
    object, no global, no pin, not the timer), [readMicroseconds] returns 0
    and [attached] returns false. *)
Theorem unattached_calls_change_nothing
    (p : Program) (o : nat) (h : SoftwareServo) (v : Z) :
  objects p !! o = Some h -> _attached h = false ->
  call o (write v) p = Ok (tt, p) /\
  call o (writeMicroseconds v) p = Ok (tt, p) /\
  call o detach p = Ok (tt, p) /\
  call o readMicroseconds p = Ok (0, p) /\
  call o attached p = Ok (false, p).
Proof.
  intros Hobj Hatt.
  assert (Hsame : mkProgram (<[o := h]> (objects p)) (statics p) = p).
  { rewrite list_insert_id by exact Hobj. destruct p. reflexivity. }
  unfold call. rewrite Hobj.
  rewrite write_unattached, writeMicroseconds_unattached, detach_unattached,
    readMicroseconds_unattached by exact Hatt.
  cbn [this globals attached field gets]. rewrite Hatt, Hsame.
  repeat split; reflexivity.
Qed.

Lemma unattached_calls_change_nothing_witness :
  call 4%nat (write 90) four_servos = Ok (tt, four_servos) /\
  call 4%nat (writeMicroseconds 90) four_servos = Ok (tt, four_servos) /\
  call 4%nat detach four_servos = Ok (tt, four_servos) /\
  call 4%nat readMicroseconds four_servos = Ok (0, four_servos) /\
  call 4%nat attached four_servos = Ok (false, four_servos).
Proof.
  apply (unattached_calls_change_nothing four_servos 4%nat new_SoftwareServo 90).
  - reflexivity.
  - reflexivity.
Defined.

(** X21: through a handle that is not attached and whose calibration
    bounds are distinct, [read] returns a negative number, never an angle
    of [0,180]: it maps the 0 of [readMicroseconds] from below the
    calibrated range. *)
Theorem read_unattached_negative (h : SoftwareServo) (g : Globals) :
  _attached h = false -> calibrated h -> _minUs h < _maxUs h ->
  exists a, read (mkEnv h g) = Ok (a, mkEnv h g) /\ a <= -12.
Proof.
  intros Hatt (H200 & Hle & H250 & H3000) Hlt.
  rewrite read_unattached by exact Hatt.
  unfold us_to_angle, improved_map, isub, iadd, imul.
  set (mn := _minUs h) in *. set (mx := _maxUs h) in *.
  rewrite (to_int_id (mx - mn)) by (unfold is_int; lia).
  rewrite (to_int_id (180 - 0)) by (unfold is_int; lia).
  rewrite (to_int_id (0 - mn)) by (unfold is_int; lia).
  rewrite (to_int_id (1 * 2)) by (unfold is_int; lia).
  change (180 - 0) with 180. change (1 * 2) with 2.
  rewrite (to_int_id ((0 - mn) * 180)) by (unfold is_int; lia).
  rewrite (to_int_id ((0 - mn) * 180 * 2)) by (unfold is_int; lia).
  rewrite (idiv_positive ((0 - mn) * 180 * 2) (mx - mn)) by lia.
  cbn [result_bind].
  replace ((0 - mn) * 180 * 2) with (- (mn * 360)) by lia.
  rewrite (Z.quot_opp_l (mn * 360) (mx - mn)) by lia.
  rewrite (Z.quot_div_nonneg (mn * 360) (mx - mn)) by lia.
  set (q := mn * 360 / (mx - mn)).
  assert (Hq : 25 <= q <= mn * 360).
  { subst q. split.
    - apply Z.div_le_lower_bound; lia.
    - apply Z.div_le_upper_bound; [lia|]. nia. }
  rewrite (to_int_id (- q)) by (unfold is_int; lia).
  rewrite (to_int_id (- q + 1)) by (unfold is_int; lia).
  rewrite (idiv_positive (- q + 1) 2) by lia. cbn [result_bind].
  replace (- q + 1) with (- (q - 1)) by lia.
  rewrite (Z.quot_opp_l (q - 1) 2) by lia.
  rewrite (Z.quot_div_nonneg (q - 1) 2) by lia.
  set (r := (q - 1) / 2).
  assert (Hr : 12 <= r <= q).
  { subst r. split.
    - apply Z.div_le_lower_bound; lia.
    - apply Z.div_le_upper_bound; lia. }
  rewrite (to_int_id (- r)) by (unfold is_int; lia).
  rewrite (to_int_id (- r + 0)) by (unfold is_int; lia).
  cbn [lift]. eexists. split; [reflexivity|]. lia.
Qed.

Lemma read_unattached_negative_witness :
  exists a,
    read (mkEnv new_SoftwareServo initial_globals) =
      Ok (a, mkEnv new_SoftwareServo initial_globals) /\ a <= -12.
Proof.
  apply (read_unattached_negative new_SoftwareServo initial_globals).
  - reflexivity.
  - unfold calibrated, new_SoftwareServo, DEFAULT_MIN_PULSE_WIDTH,
      DEFAULT_MAX_PULSE_WIDTH. cbn [_minUs _maxUs]. lia.
  - unfold new_SoftwareServo, DEFAULT_MIN_PULSE_WIDTH, DEFAULT_MAX_PULSE_WIDTH.
    cbn [_minUs _maxUs]. lia.
Defined.

(* ------------------------------------------------------------------ *)
(** ** Pins stay where they are *)

Section PinsStay.

Lemma run_method_keeps_pin
    (m : method) (h : SoftwareServo) (g : Globals) (e : Env) (j pin : Z) :
  globals_ok g -> handle_ok h ->
  run_method m (mkEnv h g) = Ok (tt, e) ->
  array_get (software_servo_pins g) j = Ok pin -> pin <> -1 ->
  array_get (software_servo_pins (globals e)) j = Ok pin.
Proof.
  intros Hg (Hb & _) Hrun Hj Hpin. unfold binding_ok in Hb.
  revert Hrun.
  destruct (_attached h) eqn:Hatt; destruct m as [pn mn mx v| |v|v| | |];
    cbn [run_method]; try unfold discard; cbn [bind ret].
  - destruct (attach_attached h g pn mn mx v Hg Hatt Hb)
      as (h' & g' & -> & _ & _ & _ & _ & Hp & _).
    intros [= <-]. cbn [globals]. rewrite Hp. exact Hj.
  - intros Hrun. rewrite (detach_keeps_pins h g e Hrun). exact Hj.
  - destruct (write_attached h g v Hg Hatt Hb) as (g' & -> & Hp & _).
    intros [= <-]. cbn [globals]. rewrite Hp. exact Hj.
  - destruct (writeMicroseconds_attached h g v Hg Hatt Hb)
      as (g' & -> & _ & Hp & _).
    intros [= <-]. cbn [globals]. rewrite Hp. exact Hj.
  - destruct (read (mkEnv h g)) as [[r e1]|f] eqn:E; [|discriminate].
    apply read_only_read in E. subst e1. intros [= <-]. exact Hj.
  - destruct (readMicroseconds (mkEnv h g)) as [[r e1]|f] eqn:E; [|discriminate].
    apply read_only_readMicroseconds in E. subst e1. intros [= <-]. exact Hj.
  - cbn. intros [= <-]. exact Hj.
  - destruct (first_free_or_full g (proj1 Hg)) as [Hfull | (k & Hk)].
    + rewrite attach_full by assumption. intros [= <-]. exact Hj.
    + destruct (attach_claims_first_free pn mn mx v h g k Hg Hatt Hk)
        as (e1 & -> & _ & _ & _ & _ & Hp & _).
      intros [= <-]. rewrite Hp.
      destruct Hk as (Hk & Hfree & _).
      rewrite array_get_set_other; [exact Hj | lia | |].
      * apply array_get_lookup in Hj. lia.
      * intros ->. unfold unassigned in Hfree. congruence.
  - intros Hrun. rewrite (detach_keeps_pins h g e Hrun). exact Hj.
  - rewrite write_unattached by assumption. intros [= <-]. exact Hj.
  - rewrite writeMicroseconds_unattached by assumption. intros [= <-]. exact Hj.
  - destruct (read (mkEnv h g)) as [[r e1]|f] eqn:E; [|discriminate].
    apply read_only_read in E. subst e1. intros [= <-]. exact Hj.
  - rewrite readMicroseconds_unattached by assumption. intros [= <-]. exact Hj.
  - cbn. intros [= <-]. exact Hj.
Qed.

Lemma step_keeps_pin (ev : event) (p p' : Program) (j pin : Z) :
  program_ok p -> step ev p = Ok (tt, p') ->
  array_get (software_servo_pins (statics p)) j = Ok pin -> pin <> -1 ->
  array_get (software_servo_pins (statics p')) j = Ok pin.
Proof.
  intros (Hg & Hobjs) Hstep Hj Hpin. revert Hstep.
  destruct ev as [o m|]; cbn [step].
  - unfold call.
    destruct (objects p !! o) as [h|] eqn:Ho; [|discriminate].
    destruct (run_method m (mkEnv h (statics p))) as [[[] e]|f] eqn:E;
      [|discriminate].
    intros [= <-]. cbn [statics].
    assert (Hh : handle_ok h).
    { rewrite Forall_lookup in Hobjs. exact (Hobjs o h Ho). }
    exact (run_method_keeps_pin m h (statics p) e j pin Hg Hh E Hj Hpin).
  - unfold interrupt.
    destruct (timer_tick_frame (statics p) Hg) as (g' & -> & Hp & _).
    intros [= <-]. cbn [statics]. rewrite Hp. exact Hj.
Qed.

End PinsStay.

(** X22: no call and no tick ever releases or changes a pin: if slot [j]
    holds a pin at some point of a run, it holds the same pin after any
    further events, whichever handle is detached or attached meanwhile. *)
Theorem pins_never_released
    (evs : list event) (p p' : Program) (j pin : Z) :
  program_ok p ->
  run_events evs p = Ok (tt, p') ->
  array_get (software_servo_pins (statics p)) j = Ok pin -> pin <> -1 ->
  array_get (software_servo_pins (statics p')) j = Ok pin.
Proof.
  revert p. induction evs as [|ev evs IH]; intros p Hp Hrun Hj Hpin.
  - cbn in Hrun. injection Hrun as <-. exact Hj.
  - cbn [run_events bind] in Hrun.
    destruct (step ev p) as [[[] p1]|f] eqn:E; [|discriminate].
    apply (IH p1).
    + eapply step_ok; eassumption.
    + exact Hrun.
    + eapply step_keeps_pin; eassumption.
    + exact Hpin.
Qed.

Lemma one_servo_program_ok :
  program_ok (mkProgram [one_servo_handle] one_servo_globals).
Proof.
  split; [exact one_servo_globals_ok|].
  cbn [objects]. constructor; [|constructor].
  split.
  - unfold binding_ok, MAX_SERVOS. cbn. lia.
  - unfold calibrated. cbn. lia.
Defined.

Lemma pins_never_released_witness :
  array_get
    (software_servo_pins
       (statics (mkProgram [new_SoftwareServo]
                   (set_timer Disarmed
                      (set_map 0 one_servo_globals))))) 0 = Ok 5.
Proof.
  apply (pins_never_released [Call 0%nat Detach; TimerTick]
           (mkProgram [one_servo_handle] one_servo_globals)
           (mkProgram [new_SoftwareServo]
              (set_timer Disarmed (set_map 0 one_servo_globals))) 0 5).
  - exact one_servo_program_ok.
  - vm_compute. reflexivity.
  - reflexivity.
  - lia.
Defined.

(* ------------------------------------------------------------------ *)
(** ** Reachable states *)

Section NoOutOfBounds.

(** The mapping helper touches no array: its only faults are those of its
    two divisions. *)
Lemma improved_map_fault (value minIn maxIn minOut maxOut : Z) (f : fault) :
  improved_map value minIn maxIn minOut maxOut = Fault f ->
  f = DivideByZero \/ f = DivideOverflow.
Proof.
  unfold improved_map, idiv.
  repeat first
    [ progress cbn [result_bind]
    | match goal with
      | |- context [if ?c then _ else _] => destruct c
      end ];
    intros H; try discriminate H; injection H as <-; auto.
Qed.

Lemma readMicroseconds_returns (h : SoftwareServo) (g : Globals) :
  globals_ok g -> binding_ok h ->
  exists w, readMicroseconds (mkEnv h g) = Ok (w, mkEnv h g).
Proof.
  intros ((_ & Hlen & _) & _) Hb. unfold binding_ok in Hb.
  destruct (_attached h) eqn:Hatt.
  - destruct (array_get_ok (software_servo_pulse_lenght g) (_id h))
      as (w & Hw & _).
    { apply sized_index; assumption. }
    exists w. apply readMicroseconds_attached; assumption.
  - exists 0. apply readMicroseconds_unattached. exact Hatt.
Qed.

Lemma read_in_bounds (h : SoftwareServo) (g : Globals) :
  globals_ok g -> binding_ok h ->
  read (mkEnv h g) <> Fault OutOfBounds.
Proof.
  intros Hg Hb. unfold read. cbn [bind].
  destruct (readMicroseconds_returns h g Hg Hb) as (w & ->).
  cbn [bind field gets lift this].
  destruct (improved_map _ _ _ _ _) as [r|f] eqn:E; [discriminate|].
  apply improved_map_fault in E. destruct E as [-> | ->]; discriminate.
Qed.

(** No method indexes an array out of bounds on a well-formed state. *)
Lemma run_method_in_bounds (m : method) (h : SoftwareServo) (g : Globals) :
  globals_ok g -> handle_ok h ->
  run_method m (mkEnv h g) <> Fault OutOfBounds.
Proof.
  intros Hg (Hb & Hc).
  pose proof (read_in_bounds h g Hg Hb) as Hread.
  destruct (readMicroseconds_returns h g Hg Hb) as (w & Hrm).
  unfold binding_ok in Hb.
  destruct (_attached h) eqn:Hatt; destruct m as [pin mn mx v| |v|v| | |];
    cbn [run_method]; try unfold discard; cbn [bind ret].
  - destruct (attach_attached h g pin mn mx v Hg Hatt Hb) as (h' & g' & -> & _).
    discriminate.
  - rewrite detach_attached by assumption. discriminate.
  - destruct (write_attached h g v Hg Hatt Hb) as (g' & -> & _). discriminate.
  - destruct (writeMicroseconds_attached h g v Hg Hatt Hb) as (g' & -> & _).
    discriminate.
  - destruct (read (mkEnv h g)) as [[r e1]|f]; [discriminate|].
    intros [= ->]. apply Hread. reflexivity.
  - rewrite Hrm. discriminate.
  - cbn. discriminate.
  - destruct (first_free_or_full g (proj1 Hg)) as [Hfull | (k & Hk)].
    + rewrite attach_full by assumption. discriminate.
    + destruct (attach_claims_first_free pin mn mx v h g k Hg Hatt Hk)
        as (e1 & -> & _).
      discriminate.
  - rewrite detach_unattached by assumption. discriminate.
  - rewrite write_unattached by assumption. discriminate.
  - rewrite writeMicroseconds_unattached by assumption. discriminate.
  - destruct (read (mkEnv h g)) as [[r e1]|f]; [discriminate|].
    intros [= ->]. apply Hread. reflexivity.
  - rewrite Hrm. discriminate.
  - cbn. discriminate.
Qed.

Lemma step_in_bounds (ev : event) (p : Program) :
  program_ok p -> step ev p <> Fault OutOfBounds.
Proof.
  intros (Hg & Hobjs). destruct ev as [o m|]; cbn [step].
  - unfold call.
    destruct (objects p !! o) as [h|] eqn:Ho; [|discriminate].
    assert (Hh : handle_ok h).
    { rewrite Forall_lookup in Hobjs. exact (Hobjs o h Ho). }
    pose proof (run_method_in_bounds m h (statics p) Hg Hh) as Hm.
    destruct (run_method m (mkEnv h (statics p))) as [[[] e]|f];
      [discriminate|].
    intros [= ->]. apply Hm. reflexivity.
  - unfold interrupt.
    destruct (timer_tick_ok (statics p) Hg) as (g' & -> & _). discriminate.
Qed.

Lemma run_events_in_bounds (evs : list event) (p : Program) :
  program_ok p -> run_events evs p <> Fault OutOfBounds.
Proof.
  revert p. induction evs as [|ev evs IH]; intros p Hp.
  - cbn. discriminate.
  - cbn [run_events bind].
    pose proof (step_in_bounds ev p Hp) as Hstep.
    destruct (step ev p) as [[[] p1]|f] eqn:E.
    + apply IH. eapply step_ok; eassumption.
    + intros [= ->]. apply Hstep. reflexivity.
Qed.

End NoOutOfBounds.

(** X23: every state that a sketch reaches from start-up by method calls
    and timer ticks is well formed: the four arrays keep their
    [MAX_SERVOS] elements, the cursor and every successor index stay
    inside them, every attached handle is bound to a slot index inside the
    table and every unattached one has [_id = -1], and every handle's
    calibration obeys [200 <= _minUs <= _maxUs <= 3000] and
    [250 <= _maxUs].  And no call or tick made in a reachable state
    indexes an array out of bounds, nor does any run of further events:
    neither the next event nor any continuation of the sketch ends in the
    fault [OutOfBounds]. *)
Theorem reachable_states_ok (n : nat) (evs : list event) (p : Program) :
  run_events evs (boot n) = Ok (tt, p) ->
  globals_ok (statics p) /\
  (forall o h, objects p !! o = Some h -> binding_ok h /\ calibrated h) /\
  (forall ev, step ev p <> Fault OutOfBounds) /\
  (forall evs', run_events evs' p <> Fault OutOfBounds).
Proof.
  intros Hrun.
  destruct (reachable_ok n evs p Hrun) as (Hg & Hobjs).
  split; [exact Hg|]. split.
  - intros o h Ho. rewrite Forall_lookup in Hobjs. exact (Hobjs o h Ho).
  - split.
    + intros ev. apply step_in_bounds. split; assumption.
    + intros evs'. apply run_events_in_bounds. split; assumption.
Qed.

Lemma reachable_states_ok_witness :
  globals_ok (statics after_session) /\
  (forall o h, objects after_session !! o = Some h ->
               binding_ok h /\ calibrated h) /\
  (forall ev, step ev after_session <> Fault OutOfBounds) /\
  (forall evs', run_events evs' after_session <> Fault OutOfBounds).
Proof.
  apply (reachable_states_ok 1 session after_session).
  vm_compute. reflexivity.
Defined.

(* ------------------------------------------------------------------ *)
(** ** The Schedule fits the pin table in every reachable state *)

Section SchedulerInvariant.

Lemma some_or_none (g : Globals) :
  arrays_sized g ->
  (exists j, 0 <= j < MAX_SERVOS /\ assigned g j) \/
  (forall j, 0 <= j < MAX_SERVOS -> unassigned g j).
Proof.
  intros Hs. sized g Hs.
  unfold assigned, unassigned, MAX_SERVOS. cbn [software_servo_pins].
  destruct (Z.eq_dec p0 (-1)) as [-> | H0];
    [|left; exists 0; split; [lia | eauto]].
  destruct (Z.eq_dec p1 (-1)) as [-> | H1];
    [|left; exists 1; split; [lia | eauto]].
  destruct (Z.eq_dec p2 (-1)) as [-> | H2];
    [|left; exists 2; split; [lia | eauto]].
  destruct (Z.eq_dec p3 (-1)) as [-> | H3];
    [|left; exists 3; split; [lia | eauto]].
  right. intros j Hj.
  assert (Hc : j = 0 \/ j = 1 \/ j = 2 \/ j = 3) by lia.
  destruct Hc as [-> | [-> | [-> | ->]]]; reflexivity.
Qed.

Lemma entry_built_same (g1 g2 g1' g2' : Globals) (i : Z) :
  software_servo_pins g1' = software_servo_pins g1 ->
  software_servo_next_servo g2' = software_servo_next_servo g2 ->
  software_servo_time_to_next_pulse g2' = software_servo_time_to_next_pulse g2 ->
  entry_built g1 g2 i -> entry_built g1' g2' i.
Proof.
  intros Hp Hn Ht (d & Hd & Hnx & Htm).
  exists d. rewrite Hn, Ht. split; [|split; assumption].
  apply (successor_at_same_pins g1' g1 i d); [congruence | exact Hd].
Qed.

Lemma scheduler_ok_same (g g' : Globals) :
  software_servo_pins g' = software_servo_pins g ->
  software_servo_next_servo g' = software_servo_next_servo g ->
  software_servo_time_to_next_pulse g' = software_servo_time_to_next_pulse g ->
  (software_servo_map g' <> 0 -> software_servo_map g <> 0) ->
  scheduler_ok g -> scheduler_ok g'.
Proof.
  intros Hp Hn Ht Hm (Hcons & Hback). split.
  - intros (j & Hj & Ha) i Hi.
    apply (entry_built_same g g g' g' i Hp Hn Ht).
    apply Hcons; [|exact Hi].
    exists j. split; [exact Hj|]. apply (assigned_same_pins g g' j Hp). exact Ha.
  - intros Hmap. destruct (Hback (Hm Hmap)) as (j & Hj & Ha).
    exists j. split; [exact Hj|]. apply (assigned_same_pins g g' j Hp). exact Ha.
Qed.

Lemma land_nonzero (a b : Z) : Z.land a b <> 0 -> a <> 0.
Proof. intros H ->. apply H. apply Z.land_0_l. Qed.

(** Every write through a bound handle leaves a Schedule that fits. *)
Lemma writeMicroseconds_attached_sched (h : SoftwareServo) (g : Globals) (v : Z) :
  globals_ok g -> _attached h = true -> 0 <= _id h < MAX_SERVOS ->
  bitmask_backed g ->
  exists g',
    writeMicroseconds v (mkEnv h g) = Ok (tt, mkEnv h g') /\
    globals_ok g' /\ scheduler_ok g'.
Proof.
  intros Hg Hatt Hid Hback.
  destruct (some_or_none g (proj1 Hg)) as [Hsome | Hnone].
  - destruct (writeMicroseconds_some_pin h g v Hg Hatt Hid Hsome)
      as (g' & t & E & _ & _ & _ & _ & _ & Hg' & Hp & Hall).
    exists g'. split; [exact E|]. split; [exact Hg'|]. split.
    + intros _ i Hi.
      apply (entry_built_same g g' g' g' i Hp eq_refl eq_refl). exact (Hall i Hi).
    + intros _. destruct Hsome as (j & Hj & Ha).
      exists j. split; [exact Hj|]. apply (assigned_same_pins g g' j Hp). exact Ha.
  - destruct (writeMicroseconds_no_pin h g v Hg Hatt Hid Hnone)
      as (g' & E & _ & Hmap & Hg' & Hp).
    exists g'. split; [exact E|]. split; [exact Hg'|].
    assert (Hnone' : forall j, 0 <= j < MAX_SERVOS -> ~ assigned g' j).
    { intros j Hj Ha. apply (assigned_same_pins g g' j Hp) in Ha.
      destruct Ha as (q & Hq & Hne). specialize (Hnone j Hj).
      unfold unassigned in Hnone. congruence. }
    split.
    + intros (j & Hj & Ha). exfalso. exact (Hnone' j Hj Ha).
    + intros Hm. exfalso. rewrite Hmap in Hm. apply land_nonzero in Hm.
      destruct (Hback Hm) as (j & Hj & (q & Hq & Hne)).
      specialize (Hnone j Hj). unfold unassigned in Hnone. congruence.
Qed.

Lemma write_attached_sched (h : SoftwareServo) (g : Globals) (v : Z) :
  globals_ok g -> _attached h = true -> 0 <= _id h < MAX_SERVOS ->
  bitmask_backed g ->
  exists g',
    write v (mkEnv h g) = Ok (tt, mkEnv h g') /\
    globals_ok g' /\ scheduler_ok g'.
Proof.
  intros Hg Hatt Hid Hback. unfold write. cbn [bind].
  destruct (v <? 200).
  - cbn [bind field gets this lift].
    destruct (improved_map_from_angle_ok (constrain v 0 180) (_minUs h) (_maxUs h))
      as (us & ->).
    apply writeMicroseconds_attached_sched; assumption.
  - cbn [ret]. apply writeMicroseconds_attached_sched; assumption.
Qed.

(** [attach] through a bound handle is a recalibration and a [write]. *)
Lemma attach_attached_unfold
    (h : SoftwareServo) (g : Globals) (pin minUs maxUs value : Z) :
  _attached h = true ->
  attach pin minUs maxUs value (mkEnv h g) =
  (write value ;; ret (to_uint8 pin))
    (mkEnv
       (mkServo (_id h) true
          (Z.max 200 (Z.min (Z.max 250 (Z.min 3000 (to_uint16 maxUs)))
                        (to_uint16 minUs)))
          (Z.max 250 (Z.min 3000 (to_uint16 maxUs))))
       g).
Proof.
  intros Hatt.
  unfold attach. cbn [bind field gets this]. rewrite Hatt.
  cbn [negb bind ret modify field gets this].
  unfold set_minUs, set_maxUs.
  cbn [this globals _id _attached _minUs _maxUs]. rewrite Hatt.
  reflexivity.
Qed.

(** [attach] through an unbound handle with a slot free is the pin setup,
    the claim of the slot, the calibration and a [write]. *)
Lemma attach_fresh_unfold
    (h : SoftwareServo) (g : Globals) (k pin minUs maxUs value : Z) :
  globals_ok g -> _attached h = false -> first_free g k ->
  attach pin minUs maxUs value (mkEnv h g) =
  (write value ;; ret (to_uint8 pin))
    (mkEnv
       (mkServo k true
          (Z.max 200 (Z.min (Z.max 250 (Z.min 3000 (to_uint16 maxUs)))
                        (to_uint16 minUs)))
          (Z.max 250 (Z.min 3000 (to_uint16 maxUs))))
       (set_pulse_lenght
          (<[Z.to_nat k := value]> (software_servo_pulse_lenght g))
          (set_pins (<[Z.to_nat k := pin]> (software_servo_pins g))
             (emit (PinModeOutput pin) (emit (DigitalWrite pin LOW) g))))).
Proof.
  intros Hg Hatt Hk.
  unfold attach. cbn [bind field gets this]. rewrite Hatt.
  cbn [negb bind on_globals digitalWrite pinMode_OUTPUT modify globals this].
  rewrite (claim_slot_first_free pin value k);
    [| exact Hg | exact Hk | destruct Hk as (Hk & _); lia
     | destruct Hk as ((_ & Hk) & _); unfold MAX_SERVOS in *; cbn; lia ].
  cbn [bind field gets this set_id _id].
  destruct Hk as (Hk & _).
  destruct (Z.eqb_spec k (-1)) as [Hneg | _]; [lia|].
  cbn [bind modify ret set_attached set_maxUs set_minUs field gets this globals
         _id _attached _minUs _maxUs].
  unfold set_minUs, set_maxUs, set_attached, set_id.
  cbn [this globals _id _attached _minUs _maxUs].
  reflexivity.
Qed.

Lemma run_method_sched
    (m : method) (h : SoftwareServo) (g : Globals) (e : Env) :
  globals_ok g -> handle_ok h -> scheduler_ok g ->
  run_method m (mkEnv h g) = Ok (tt, e) ->
  scheduler_ok (globals e).
Proof.
  intros Hg (Hb & _) Hok. unfold binding_ok in Hb.
  pose proof Hok as (_ & Hback).
  destruct (_attached h) eqn:Hatt; destruct m as [pin mn mx v| |v|v| | |];
    cbn [run_method]; try unfold discard; cbn [bind ret].
  - rewrite attach_attached_unfold by exact Hatt. cbn [bind].
    match goal with
    | |- context [write v (mkEnv ?hh g)] =>
        destruct (write_attached_sched hh g v Hg eq_refl Hb Hback)
          as (g' & -> & _ & Hok')
    end.
    cbn [ret]. intros [= <-]. exact Hok'.
  - rewrite detach_attached by assumption. intros [= <-]. cbn [globals].
    apply (scheduler_ok_same g); try reflexivity; [|exact Hok].
    cbn [software_servo_map set_pulse_lenght set_map]. apply land_nonzero.
  - destruct (write_attached_sched h g v Hg Hatt Hb Hback) as (g' & -> & _ & Hok').
    intros [= <-]. exact Hok'.
  - destruct (writeMicroseconds_attached_sched h g v Hg Hatt Hb Hback)
      as (g' & -> & _ & Hok').
    intros [= <-]. exact Hok'.
  - destruct (read (mkEnv h g)) as [[r e1]|f] eqn:E; [|discriminate].
    apply read_only_read in E. subst e1. intros [= <-]. exact Hok.
  - destruct (readMicroseconds (mkEnv h g)) as [[r e1]|f] eqn:E; [|discriminate].
    apply read_only_readMicroseconds in E. subst e1. intros [= <-]. exact Hok.
  - cbn. intros [= <-]. exact Hok.
  - destruct (first_free_or_full g (proj1 Hg)) as [Hfull | (k & Hk)].
    + rewrite attach_full by assumption. intros [= <-]. exact Hok.
    + rewrite (attach_fresh_unfold h g k) by assumption. cbn [bind].
      match goal with
      | |- context [write v (mkEnv ?hh ?gg)] =>
          destruct (write_attached_sched hh gg v) as (g' & -> & _ & Hok')
      end.
      * apply (globals_ok_set_pulse_lenght
                 (set_pins (<[Z.to_nat k := pin]> (software_servo_pins g))
                    (emit (PinModeOutput pin) (emit (DigitalWrite pin LOW) g)))
                 k v).
        apply (globals_ok_set_pins
                 (emit (PinModeOutput pin) (emit (DigitalWrite pin LOW) g)) k pin).
        exact Hg.
      * reflexivity.
      * apply Hk.
      * intros Hm. destruct (Hback Hm) as (j & Hj & (q & Hq & Hne)).
        exists j. split; [exact Hj|]. exists q. split; [|exact Hne].
        cbn [software_servo_pins set_pulse_lenght set_pins].
        destruct Hk as (Hk & Hfree & _).
        rewrite array_get_set_other; [exact Hq | lia | lia |].
        intros ->. unfold unassigned in Hfree. congruence.
      * cbn [ret]. intros [= <-]. exact Hok'.
  - rewrite detach_unattached by assumption. intros [= <-]. exact Hok.
  - rewrite write_unattached by assumption. intros [= <-]. exact Hok.
  - rewrite writeMicroseconds_unattached by assumption. intros [= <-]. exact Hok.
  - destruct (read (mkEnv h g)) as [[r e1]|f] eqn:E; [|discriminate].
    apply read_only_read in E. subst e1. intros [= <-]. exact Hok.
  - rewrite readMicroseconds_unattached by assumption. intros [= <-]. exact Hok.
  - cbn. intros [= <-]. exact Hok.
Qed.

Lemma step_sched (ev : event) (p p' : Program) :
  program_ok p -> scheduler_ok (statics p) ->
  step ev p = Ok (tt, p') -> scheduler_ok (statics p').
Proof.
  intros (Hg & Hobjs) Hok. destruct ev as [o m|]; cbn [step].
  - unfold call.
    destruct (objects p !! o) as [h|] eqn:Ho; [|discriminate].
    destruct (run_method m (mkEnv h (statics p))) as [[[] e]|f] eqn:E;
      [|discriminate].
    intros [= <-]. cbn [statics].
    assert (Hh : handle_ok h).
    { rewrite Forall_lookup in Hobjs. exact (Hobjs o h Ho). }
    exact (run_method_sched m h (statics p) e Hg Hh Hok E).
  - unfold interrupt.
    destruct (timer_tick_frame (statics p) Hg)
      as (g' & -> & Hp & _ & Hm & Hn & Ht).
    intros [= <-]. cbn [statics].
    apply (scheduler_ok_same (statics p)); try assumption.
    rewrite Hm. auto.
Qed.

Lemma boot_sched (n : nat) : scheduler_ok (statics (boot n)).
Proof.
  split.
  - intros (j & Hj & (q & Hq & Hne)). exfalso.
    apply slot_cases in Hj.
    destruct Hj as [-> | [-> | [-> | ->]]];
      vm_compute in Hq; injection Hq as <-; apply Hne; reflexivity.
  - intros Hm. exfalso. apply Hm. reflexivity.
Qed.

Lemma reachable_sched (evs : list event) :
  forall p p',
    program_ok p -> scheduler_ok (statics p) ->
    run_events evs p = Ok (tt, p') ->
    program_ok p' /\ scheduler_ok (statics p').
Proof.
  induction evs as [|ev evs IH]; intros p p' Hp Hok.
  - cbn. intros [= <-]. split; assumption.
  - cbn [run_events bind].
    destruct (step ev p) as [[[] p1]|f] eqn:E; [|discriminate].
    apply IH.
    + eapply step_ok; eassumption.
    + eapply step_sched; eassumption.
Qed.

End SchedulerInvariant.

(** X24: in every state that a sketch reaches from start-up, the Schedule
    fits the pin table: if any slot has a pin, then for every slot [i] the
    entry [next[i]] is the nearest slot with a pin going round from
    [i + 1], and [delay[i]] is [REFRESH_INTERVAL] times the number of
    steps to it.  The Pulse Emitter never reads a stale Schedule. *)
Theorem schedule_fits_in_reachable_states
    (n : nat) (evs : list event) (p : Program) (i : Z) :
  run_events evs (boot n) = Ok (tt, p) ->
  (exists j, 0 <= j < MAX_SERVOS /\ assigned (statics p) j) ->
  0 <= i < MAX_SERVOS ->
  exists d,
    successor_at (statics p) i d /\
    array_get (software_servo_next_servo (statics p)) i =
      Ok (Z.rem (i + d) MAX_SERVOS) /\
    array_get (software_servo_time_to_next_pulse (statics p)) i =
      Ok (d * REFRESH_INTERVAL).
Proof.
  intros Hrun Hsome Hi.
  destruct (reachable_sched evs (boot n) p (boot_ok n) (boot_sched n) Hrun)
    as (_ & Hcons & _).
  exact (Hcons Hsome i Hi).
Qed.

Lemma schedule_fits_in_reachable_states_witness :
  exists d,
    successor_at (statics after_session) 2 d /\
    array_get (software_servo_next_servo (statics after_session)) 2 =
      Ok (Z.rem (2 + d) MAX_SERVOS) /\
    array_get (software_servo_time_to_next_pulse (statics after_session)) 2 =
      Ok (d * REFRESH_INTERVAL).
Proof.
  apply (schedule_fits_in_reachable_states 1 session after_session 2).
  - vm_compute. reflexivity.
  - exists 0. split; [unfold MAX_SERVOS; lia|].
    exists 5. split; [reflexivity | lia].
  - unfold MAX_SERVOS. lia.
Defined.

(** X25: in every state that a sketch reaches from start-up, a tick that
    finds the active bitmask non-zero re-arms the timer, with a delay
    between one [REFRESH_INTERVAL] and a full cycle, and leaves the cursor
    on a slot that has a pin. *)
Theorem reachable_tick_rearms
    (n : nat) (evs : list event) (p : Program) :
  run_events evs (boot n) = Ok (tt, p) ->
  software_servo_map (statics p) <> 0 ->
  exists g' t,
    software_servo_timer_tick (statics p) = Ok (tt, g') /\
    software_servo_timer g' = Armed t true /\
    REFRESH_INTERVAL <= t <= MAX_SERVOS * REFRESH_INTERVAL /\
    assigned g' (software_servo_current_servo g').
Proof.
  intros Hrun Hmap.
  destruct (reachable_sched evs (boot n) p (boot_ok n) (boot_sched n) Hrun)
    as ((Hg & _) & Hcons & Hback).
  set (g := statics p) in *.
  assert (Hcur : 0 <= software_servo_current_servo g < MAX_SERVOS) by apply Hg.
  destruct (Hcons (Hback Hmap) _ Hcur) as (d & (Hd & Ha & _) & Hnx & Htm).
  destruct (array_get_ok (software_servo_pins g) (software_servo_current_servo g))
    as (pin & Hpin & _); [apply sized_index; [apply Hg | exact Hcur]|].
  destruct (array_get_ok (software_servo_pulse_lenght g)
              (software_servo_current_servo g))
    as (w & Hw & _); [apply sized_index; [apply Hg | exact Hcur]|].
  destruct (tick_active g (d * REFRESH_INTERVAL) pin w _ Hg Hmap Htm
              ltac:(unfold REFRESH_INTERVAL; lia) Hpin Hw Hnx)
    as (g' & E & Htimer & Hcur' & _ & Hp).
  exists g', (d * REFRESH_INTERVAL).
  split; [exact E|]. split; [exact Htimer|].
  split; [unfold MAX_SERVOS, REFRESH_INTERVAL in *; lia|].
  rewrite Hcur'. apply (assigned_same_pins g g' _ Hp). exact Ha.
Qed.

Lemma reachable_tick_rearms_witness :
  exists g' t,
    software_servo_timer_tick
      (statics (mkProgram [one_servo_handle] one_servo_globals)) = Ok (tt, g') /\
    software_servo_timer g' = Armed t true /\
    REFRESH_INTERVAL <= t <= MAX_SERVOS * REFRESH_INTERVAL /\
    assigned g' (software_servo_current_servo g').
Proof.
  apply (reachable_tick_rearms 1 [Call 0%nat (Attach 5 1000 2000 1500)]
           (mkProgram [one_servo_handle] one_servo_globals)).
  - vm_compute. reflexivity.
  - cbn. lia.
Defined.

(* ------------------------------------------------------------------ *)
(** ** Detaching and attaching again *)

(** X26: a handle that is detached and attached again does not get its
    slot back.  If its old slot held a pin, then after [detach] an [attach]
    through the same handle with the table full fails with 0, and with a
    slot free it binds the handle to that lowest free slot, which is not
    the old one. *)
Theorem reattach_after_detach_takes_new_slot
    (h : SoftwareServo) (g : Globals) (pin minUs maxUs value : Z) :
  globals_ok g -> _attached h = true -> 0 <= _id h < MAX_SERVOS ->
  assigned g (_id h) ->
  exists e1,
    detach (mkEnv h g) = Ok (tt, e1) /\
    (table_full g ->
     exists e2,
       attach pin minUs maxUs value e1 = Ok (0, e2) /\
       _attached (this e2) = false) /\
    (forall k, first_free g k ->
     exists e2,
       attach pin minUs maxUs value e1 = Ok (to_uint8 pin, e2) /\
       _attached (this e2) = true /\
       _id (this e2) = k /\ k <> _id h).
Proof.
  intros Hg Hatt Hid (q & Hq & Hne).
  rewrite detach_attached by assumption.
  eexists. split; [reflexivity|].
  set (h1 := mkServo (-1) false (_minUs h) (_maxUs h)).
  set (g1 := set_pulse_lenght _ _).
  assert (Hg1 : globals_ok g1).
  { subst g1. apply (globals_ok_set_pulse_lenght (set_map _ g)). exact Hg. }
  assert (Hp1 : software_servo_pins g1 = software_servo_pins g) by reflexivity.
  split.
  - intros Hfull.
    rewrite attach_full; [eexists; split; reflexivity | | reflexivity | reflexivity].
    intros j Hj. apply (assigned_same_pins g g1 j Hp1). apply Hfull. exact Hj.
  - intros k Hk.
    assert (Hk1 : first_free g1 k).
    { destruct Hk as (Hk & Hfree & Hbelow). split; [exact Hk|]. split.
      - apply (unassigned_same_pins g g1 k Hp1). exact Hfree.
      - intros j Hj. apply (assigned_same_pins g g1 j Hp1). apply Hbelow. exact Hj. }
    destruct (attach_fresh pin minUs maxUs value h1 g1 k Hg1 eq_refl Hk1)
      as (h' & g' & E & Hid' & Hatt' & _).
    exists (mkEnv h' g'). split; [exact E|]. split; [exact Hatt'|].
    split; [exact Hid'|].
    intros ->. destruct Hk as (_ & Hfree & _).
    unfold unassigned in Hfree. congruence.
Qed.

Lemma reattach_after_detach_takes_new_slot_witness :
  exists e1,
    detach (mkEnv one_servo_handle one_servo_globals) = Ok (tt, e1) /\
    (table_full one_servo_globals ->
     exists e2,
       attach 5 1000 2000 1500 e1 = Ok (0, e2) /\
       _attached (this e2) = false) /\
    (forall k, first_free one_servo_globals k ->
     exists e2,
       attach 5 1000 2000 1500 e1 = Ok (to_uint8 5, e2) /\
       _attached (this e2) = true /\
       _id (this e2) = k /\ k <> _id one_servo_handle).
Proof.
  apply (reattach_after_detach_takes_new_slot
           one_servo_handle one_servo_globals 5 1000 2000 1500).
  - exact one_servo_globals_ok.
  - reflexivity.
  - unfold MAX_SERVOS. cbn. lia.
  - exists 5. split; [reflexivity | lia].
Defined.

(* ------------------------------------------------------------------ *)
(** ** Calibration and the divisor *)

(** X27: calibration bounds that already obey the bounds rule
    ([200 <= min <= max <= 3000], [250 <= max]) are stored by [attach]
    exactly as given. *)
Theorem attach_keeps_valid_calibration
    (h : SoftwareServo) (g : Globals) (k pin minUs maxUs value : Z) :
  globals_ok g -> _attached h = false -> first_free g k ->
  200 <= minUs -> minUs <= maxUs -> 250 <= maxUs -> maxUs <= 3000 ->
  exists e,
    attach pin minUs maxUs value (mkEnv h g) = Ok (to_uint8 pin, e) /\
    _minUs (this e) = minUs /\ _maxUs (this e) = maxUs.
Proof.
  intros Hg Hatt Hk H200 Hle H250 H3000.
  destruct (attach_claims_first_free pin minUs maxUs value h g k Hg Hatt Hk)
    as (e & E & _ & _ & Hmx & Hmn & _).
  rewrite (to_uint16_small maxUs) in Hmx by (unfold is_uint16; lia).
  rewrite (to_uint16_small minUs) in Hmn by (unfold is_uint16; lia).
  exists e. split; [exact E|]. lia.
Qed.

Lemma attach_keeps_valid_calibration_witness :
  exists e,
    attach 5 544 2400 1500 (mkEnv new_SoftwareServo initial_globals) =
      Ok (to_uint8 5, e) /\
    _minUs (this e) = 544 /\ _maxUs (this e) = 2400.
Proof.
  apply (attach_keeps_valid_calibration
           new_SoftwareServo initial_globals 0 5 544 2400 1500); try lia.
  - exact initial_globals_ok.
  - reflexivity.
  - exact initial_first_free.
Defined.

Lemma quot_abs_le (a b : Z) : b <> 0 -> Z.abs (Z.quot a b) <= Z.abs a.
Proof.
  intros Hb. rewrite <- Z.quot_abs by exact Hb.
  rewrite Z.quot_div_nonneg by lia.
  apply Z.div_le_upper_bound; [lia|]. nia.
Qed.

Lemma idiv_nonzero (x y : Z) :
  y <> 0 -> - 2 ^ 31 < x -> idiv x y = Ok (to_int (Z.quot x y)).
Proof.
  intros Hy Hx. unfold idiv.
  destruct (Z.eqb_spec y 0) as [Hz | _]; [contradiction|].
  destruct (Z.eqb_spec x (- 2 ^ 31)) as [Hm | _]; [lia|].
  reflexivity.
Qed.

(** X28: inside the range in which no [int] operation of [improved_map]
    overflows (input bounds of the [uint16_t] range, [value] within 2^16
    of [minIn], an output range of at most 2^12 that starts within 2^16 of
    0), [improved_map] divides by zero exactly when the input range is
    empty ([minIn = maxIn]).  With any other input range, a reversed one
    ([maxIn < minIn]) included, it returns the quotient of C++'s truncating
    division, rounded by the added half, shifted by [minOut]. *)
Theorem improved_map_faults_iff_empty_range
    (value minIn maxIn minOut maxOut : Z) :
  is_uint16 minIn -> is_uint16 maxIn ->
  Z.abs (value - minIn) <= 2 ^ 16 ->
  Z.abs (maxOut - minOut) <= 2 ^ 12 ->
  Z.abs minOut <= 2 ^ 16 ->
  (minIn = maxIn /\
   improved_map value minIn maxIn minOut maxOut = Fault DivideByZero) \/
  (minIn <> maxIn /\
   improved_map value minIn maxIn minOut maxOut =
     Ok (Z.quot
           (Z.quot ((value - minIn) * (maxOut - minOut) * 2) (maxIn - minIn) + 1)
           2 + minOut)).
Proof.
  unfold is_uint16. intros HmI HMI Hd Hm Ho.
  destruct (Z.eq_dec minIn maxIn) as [-> | Hne].
  { left. split; [reflexivity|]. apply improved_map_zero_range. }
  right. split; [exact Hne|].
  set (d := value - minIn) in *. set (m := maxOut - minOut) in *.
  set (n := maxIn - minIn).
  assert (Hn : n <> 0) by (unfold n; lia).
  assert (Hx : Z.abs (d * m * 2) <= 2 ^ 29).
  { rewrite !Z.abs_mul. change (Z.abs 2) with 2.
    change (2 ^ 29) with (2 ^ 16 * 2 ^ 12 * 2).
    apply Z.mul_le_mono_nonneg_r; [lia|].
    apply Z.mul_le_mono_nonneg; lia. }
  pose proof (quot_abs_le (d * m * 2) n Hn) as Hq.
  set (q := Z.quot (d * m * 2) n) in *.
  assert (Hh : Z.abs (Z.quot (q + 1) 2) <= 2 ^ 29 + 1).
  { pose proof (quot_abs_le (q + 1) 2 ltac:(lia)). lia. }
  unfold improved_map, isub, iadd, imul.
  fold d m n.
  rewrite (to_int_id d) by (unfold is_int; lia).
  rewrite (to_int_id m) by (unfold is_int; lia).
  rewrite (to_int_id n) by (unfold is_int, n; lia).
  change (to_int (1 * 2)) with 2.
  assert (Hdm : Z.abs (d * m) <= 2 ^ 28).
  { rewrite Z.abs_mul. change (2 ^ 28) with (2 ^ 16 * 2 ^ 12).
    apply Z.mul_le_mono_nonneg; lia. }
  rewrite (to_int_id (d * m)) by (unfold is_int; lia).
  rewrite (to_int_id (d * m * 2)) by (unfold is_int; lia).
  rewrite (idiv_nonzero (d * m * 2) n) by lia.
  cbn [result_bind]. fold q.
  rewrite (to_int_id q) by (unfold is_int; lia).
  change (to_int (2 / 2)) with 1.
  rewrite (to_int_id (q + 1)) by (unfold is_int; lia).
  rewrite (idiv_positive (q + 1) 2) by lia.
  cbn [result_bind].
  rewrite (to_int_id (Z.quot (q + 1) 2)) by (unfold is_int; lia).
  rewrite (to_int_id (Z.quot (q + 1) 2 + minOut)) by (unfold is_int; lia).
  reflexivity.
Qed.

Lemma improved_map_faults_iff_empty_range_witness :
  (2000 = 1000 /\ improved_map 1500 2000 1000 0 180 = Fault DivideByZero) \/
  (2000 <> 1000 /\ improved_map 1500 2000 1000 0 180 = Ok 90).
Proof.
  apply (improved_map_faults_iff_empty_range 1500 2000 1000 0 180);
    unfold is_uint16; lia.
Defined.
